(** * Behavioral threads with async operations: a shallow embedding of
    [bthreads.ts] and the properties of its scheduler.

    Modelling conventions.
    - An [Event] is a JavaScript value; the scheduler uses its truthiness
      ([if (selectedEvent)]) and SameValueZero equality ([post.includes]).
    - A [Set<Thread>] is an insertion-ordered list of thread records; the
      field [tid] stands for the identity of the JavaScript object.
    - A generator is a state machine: a current state with a [next] and a
      [throw] transition.  A body that lets an error escape makes the
      transition answer [IterRaise].
    - Every yielded [Sync] is taken to be a fresh object (as [makeSyncSpec]
      returns one), so no two threads alias a sync.
    - An Effection [Operation] is abstracted by its outcome: it settles
      after a number of clock ticks with a value or an error, or it is
      suspended for ever.  The clock advances only where the code really
      waits (the body sleeping, the scheduler waiting for a notification);
      a call of [schedule] is atomic with respect to settling operations.
    - The [GameState] class of [tictactoe.ts] is embedded in [TicTacToe];
      the threads of the game need events that are objects with fields and
      a state shared between bodies, and are not embedded. *)

From Stdlib Require Import List String ZArith Bool Lia Arith PeanoNat.
From Stdlib Require Import Permutation Sorted.
Import ListNotations.
Local Open Scope string_scope.
Local Open Scope list_scope.

(* ------------------------------------------------------------------ *)
(** ** Events *)

Inductive Event : Type :=
| EUndefined
| ENull
| EBool (b : bool)
| ENum (n : Z)
| EStr (s : string)
| EObj (ref : nat).

(** JavaScript truthiness, as tested by [if (selectedEvent)]. *)
Definition truthy (e : Event) : bool :=
  match e with
  | EUndefined => false
  | ENull => false
  | EBool b => b
  | ENum n => negb (Z.eqb n 0)
  | EStr s => negb (String.eqb s EmptyString)
  | EObj _ => true
  end.

(** SameValueZero, the equality of [Array.prototype.includes]. *)
Definition sameValueZero (a b : Event) : bool :=
  match a, b with
  | EUndefined, EUndefined => true
  | ENull, ENull => true
  | EBool x, EBool y => Bool.eqb x y
  | ENum x, ENum y => Z.eqb x y
  | EStr x, EStr y => String.eqb x y
  | EObj x, EObj y => Nat.eqb x y
  | _, _ => false
  end.

Definition includes (l : list Event) (e : Event) : bool :=
  existsb (fun x => sameValueZero x e) l.

(* ------------------------------------------------------------------ *)
(** ** Exec, Sync, generators and threads *)

Definition JsError := string.

(** Effection's [Result<Event>]. *)
Inductive Result : Type :=
| Ok (value : Event)
| Err (error : JsError).

Inductive Operation : Type :=
| OpSettles (ticks : nat) (r : Result)
| OpSuspend.

Inductive Exec : Type :=
| ExNone
| ExPending (op : Operation)
| ExRunning (task : nat)
| ExDone (result : Result).

Record Sync : Type := mkSync {
  post : list Event;
  wait : Event -> bool;
  halt : Event -> bool;
  exec : Exec
}.

Record SyncOptions : Type := mkSyncOptions {
  opt_post : option (list Event);
  opt_wait : option (Event -> bool);
  opt_halt : option (Event -> bool);
  opt_exec : option Operation
}.

Definition noOptions : SyncOptions := mkSyncOptions None None None None.

Definition makeSyncSpec (o : SyncOptions) : Sync :=
  {| post := match opt_post o with Some p => p | None => [] end;
     wait := match opt_wait o with Some f => f | None => fun _ => false end;
     halt := match opt_halt o with Some f => f | None => fun _ => false end;
     exec := match opt_exec o with Some op => ExPending op | None => ExNone end |}.

(** What one transition of a generator answers. *)
Inductive IterResult (S : Type) : Type :=
| IterYield (value : Sync) (s' : S)
| IterDone
| IterRaise (e : JsError).
Arguments IterYield {S} value s'.
Arguments IterDone {S}.
Arguments IterRaise {S} e.

Record Generator : Type := mkGenerator {
  gen_state : Type;
  gen_cur : gen_state;
  gen_next : gen_state -> Event -> IterResult gen_state;
  gen_throw : gen_state -> JsError -> IterResult gen_state
}.

Inductive Step : Type :=
| StepYield (value : Sync) (proc' : Generator)
| StepDone
| StepRaise (e : JsError).

Definition resume (g : Generator) (r : IterResult (gen_state g)) : Step :=
  match r with
  | IterYield v s' => StepYield v (mkGenerator (gen_state g) s' (gen_next g) (gen_throw g))
  | IterDone => StepDone
  | IterRaise e => StepRaise e
  end.

(** [proc.next(e)] and [proc.throw(err)]. *)
Definition next (g : Generator) (e : Event) : Step := resume g (gen_next g (gen_cur g) e).
Definition throw (g : Generator) (err : JsError) : Step := resume g (gen_throw g (gen_cur g) err).

(** [(function* () {})()]: completes at once, lets a thrown error escape. *)
Definition emptyGenerator : Generator :=
  mkGenerator unit tt (fun _ _ => IterDone) (fun _ e => IterRaise e).

Record Thread : Type := mkThread {
  tid : nat;
  name : string;
  sync : Sync;
  proc : Generator;
  prio : Z
}.

Definition set_sync (t : Thread) (s : Sync) : Thread :=
  mkThread (tid t) (name t) s (proc t) (prio t).

Definition set_exec (t : Thread) (x : Exec) : Thread :=
  set_sync t (mkSync (post (sync t)) (wait (sync t)) (halt (sync t)) x).

Definition set_post (t : Thread) (p : list Event) : Thread :=
  set_sync t (mkSync p (wait (sync t)) (halt (sync t)) (exec (sync t))).

(** [thread.sync = value] after the generator moved on to [p]. *)
Definition advanced (t : Thread) (value : Sync) (p : Generator) : Thread :=
  mkThread (tid t) (name t) value p (prio t).

Definition createEmptyThread (id : nat) (nm : string) : Thread :=
  {| tid := id; name := nm; proc := emptyGenerator;
     sync := makeSyncSpec noOptions; prio := 0 |}.

(** A computation that may throw. *)
Inductive Except (A : Type) : Type :=
| Value (a : A)
| Thrown (e : JsError).
Arguments Value {A} a.
Arguments Thrown {A} e.

(** [makeThread({name, prio = 1, behavior})]; [id] is the identity of the
    record it allocates. *)
Definition makeThread (id : nat) (nm : string) (pr : option Z) (behavior : Generator)
  : Except Thread :=
  match next behavior EUndefined with
  | StepDone => Value (createEmptyThread id nm)
  | StepYield s p =>
      Value {| tid := id; name := nm; prio := match pr with Some z => z | None => 1%Z end;
               proc := p; sync := s |}
  | StepRaise e => Thrown e
  end.

(* ------------------------------------------------------------------ *)
(** ** The runtime: spawned tasks, the clock and the notification channel *)

Record Task : Type := mkTask {
  task_id : nat;
  owner : nat;
  started : nat;
  task_op : Operation
}.

(** [inbox] is the queue of the scheduler's current subscription to the
    channel ([None]: nobody is subscribed, a message sent is dropped). *)
Record Runtime : Type := mkRuntime {
  tasks : list Task;
  clock : nat;
  fresh_task : nat;
  inbox : option nat
}.

(** [yield* channel.send()] *)
Definition send (rt : Runtime) : Runtime :=
  mkRuntime (tasks rt) (clock rt) (fresh_task rt) (option_map S (inbox rt)).

Definition live (k : nat) (rt : Runtime) : bool :=
  existsb (fun x => Nat.eqb (task_id x) k) (tasks rt).

(** [yield* spawn(...)] of the task that runs [op] for thread [t]. *)
Definition spawn (t : Thread) (op : Operation) (rt : Runtime) : nat * Runtime :=
  (fresh_task rt,
   mkRuntime (tasks rt ++ [mkTask (fresh_task rt) (tid t) (clock rt) op])
             (clock rt) (S (fresh_task rt)) (inbox rt)).

(** [yield* task.halt()]: the task leaves the pool without marking the
    execution as done or failed; its [finally] block sends on the channel. *)
Definition haltTask (k : nat) (rt : Runtime) : Runtime :=
  if live k rt then
    send (mkRuntime (filter (fun x => negb (Nat.eqb (task_id x) k)) (tasks rt))
                    (clock rt) (fresh_task rt) (inbox rt))
  else rt.

Definition startThreadOperationIfNecessary (t : Thread) (rt : Runtime)
  : Thread * Runtime :=
  match exec (sync t) with
  | ExPending op =>
      let (k, rt') := spawn t op rt in
      (set_exec t (ExRunning k), rt')
  | _ => (t, rt)
  end.

(* ------------------------------------------------------------------ *)
(** ** schedule *)

(** What the body of a [for (const thread of threads)] loop did to the
    thread it visited. *)
Inductive Visit : Type :=
| Untouched
| Kept (t' : Thread) (rt' : Runtime)
| Deleted (rt' : Runtime)
| Escaped (e : JsError) (t' : Thread) (rt' : Runtime).

(** The state after a loop or a whole turn.  [t_error] holds the exception
    that left the loop, [t_selected] the event that Phase C delivered. *)
Record Turn : Type := mkTurn {
  t_threads : list Thread;
  t_rt : Runtime;
  t_didWork : bool;
  t_selected : option Event;
  t_error : option JsError
}.

Fixpoint forEach (visit : Thread -> Runtime -> Visit) (ts : list Thread) (rt : Runtime)
  : Turn :=
  match ts with
  | [] => mkTurn [] rt false None None
  | t :: rest =>
      match visit t rt with
      | Untouched =>
          let r := forEach visit rest rt in
          mkTurn (t :: t_threads r) (t_rt r) (t_didWork r) None (t_error r)
      | Kept t' rt' =>
          let r := forEach visit rest rt' in
          mkTurn (t' :: t_threads r) (t_rt r) true None (t_error r)
      | Deleted rt' =>
          let r := forEach visit rest rt' in
          mkTurn (t_threads r) (t_rt r) true None (t_error r)
      | Escaped e t' rt' => mkTurn (t' :: rest) rt' false None (Some e)
      end
  end.

(** Phase A, the body of the first loop. *)
Definition harvestThread (t : Thread) (rt : Runtime) : Visit :=
  match exec (sync t) with
  | ExDone (Ok v) => Kept (set_post (set_exec t ExNone) [v]) rt
  | ExDone (Err e) =>
      match throw (proc t) e with
      | StepDone => Deleted rt
      | StepYield value p =>
          let (t', rt') := startThreadOperationIfNecessary (advanced t value p) rt in
          Kept t' rt'
      | StepRaise e' => Escaped e' t rt
      end
  | _ => Untouched
  end.

Definition harvest : list Thread -> Runtime -> Turn := forEach harvestThread.

(** Phase B.  [Array.prototype.sort] is stable; the comparator
    [b.prio - a.prio] puts higher priorities first. *)
Fixpoint insert_prio (t : Thread) (l : list Thread) : list Thread :=
  match l with
  | [] => [t]
  | x :: r => if Z.ltb (prio t) (prio x) then x :: insert_prio t r else t :: l
  end.

Fixpoint sort_prio (l : list Thread) : list Thread :=
  match l with
  | [] => []
  | t :: r => insert_prio t (sort_prio r)
  end.

Definition candidates (ts : list Thread) : list Event :=
  flat_map (fun x => post (sync x)) (sort_prio ts).

Definition halted (ts : list Thread) (x : Event) : bool :=
  existsb (fun y => halt (sync y) x) ts.

Definition findEvent (ts : list Thread) : option Event :=
  find (fun x => negb (halted ts x)) (candidates ts).

(** [find] answers [undefined] when nothing is found. *)
Definition selectedEvent (ts : list Thread) : Event :=
  match findEvent ts with
  | Some x => x
  | None => EUndefined
  end.

(** Phase C, the body of the second loop. *)
Definition advanceThread (selected : Event) (t : Thread) (rt : Runtime) : Visit :=
  if includes (post (sync t)) selected || wait (sync t) selected then
    let (t1, rt1) :=
      match exec (sync t) with
      | ExRunning k => (set_exec t ExNone, haltTask k rt)
      | _ => (t, rt)
      end in
    match next (proc t1) selected with
    | StepDone => Deleted rt1
    | StepYield value p =>
        let (t2, rt2) := startThreadOperationIfNecessary (advanced t1 value p) rt1 in
        Kept t2 rt2
    | StepRaise e => Escaped e t1 rt1
    end
  else Untouched.

Definition schedule (threads : list Thread) (rt : Runtime) : Turn :=
  let a := harvest threads rt in
  match t_error a with
  | Some _ => a
  | None =>
      let selected := selectedEvent (t_threads a) in
      if truthy selected then
        let c := forEach (advanceThread selected) (t_threads a) (t_rt a) in
        mkTurn (t_threads c) (t_rt c) true (Some selected) (t_error c)
      else a
  end.

(* ------------------------------------------------------------------ *)
(** ** The system: active and pending threads *)

Record System : Type := mkSystem {
  activeThreads : list Thread;
  pendingThreads : list Thread;
  fresh_tid : nat;
  runtime : Runtime
}.

Definition has (ts : list Thread) (t : Thread) : bool :=
  existsb (fun x => Nat.eqb (tid x) (tid t)) ts.

(** [Set.prototype.add] *)
Definition set_add (t : Thread) (ts : list Thread) : list Thread :=
  if has ts t then ts else ts ++ [t].

(** [new Set([...a, ...b])] *)
Definition set_union (a b : list Thread) : list Thread :=
  fold_left (fun acc t => set_add t acc) b (fold_left (fun acc t => set_add t acc) a []).

(** A task that settles writes [thread.sync.exec = { state: "done", ... }]
    into its thread, wherever the thread is held, and then sends. *)
Definition markDone (id : nat) (r : Result) (ts : list Thread) : list Thread :=
  map (fun t => if Nat.eqb (tid t) id then set_exec t (ExDone r) else t) ts.

Definition due (now : nat) (k : Task) : option Result :=
  match task_op k with
  | OpSettles n r => if Nat.leb (started k + n) now then Some r else None
  | OpSuspend => None
  end.

Definition deliver (k : Task) (r : Result) (s : System) : System :=
  mkSystem (markDone (owner k) r (activeThreads s))
           (markDone (owner k) r (pendingThreads s))
           (fresh_tid s)
           (send (mkRuntime
                    (filter (fun x => negb (Nat.eqb (task_id x) (task_id k)))
                            (tasks (runtime s)))
                    (clock (runtime s)) (fresh_task (runtime s)) (inbox (runtime s)))).

Definition settle (s : System) : System :=
  fold_left (fun acc k =>
               match due (clock (runtime acc)) k with
               | Some r => deliver k r acc
               | None => acc
               end)
            (tasks (runtime s)) s.

Definition at_time (now : nat) (s : System) : System :=
  mkSystem (activeThreads s) (pendingThreads s) (fresh_tid s)
           (mkRuntime (tasks (runtime s)) now (fresh_task (runtime s)) (inbox (runtime s))).

(** The caller really waits for [n] ticks: operations due by then settle. *)
Definition sleep (n : nat) (s : System) : System :=
  settle (at_time (clock (runtime s) + n) s).

(** The body handed to [behavioralThreadSystem], as the sequence of what it
    does with the thread factory before it returns [v]. *)
Inductive Body (V : Type) : Type :=
| BReturn (v : V)
| BThread (nm : string) (behavior : Generator) (k : Body V)
| BSleep (ticks : nat) (k : Body V)
| BThrow (e : JsError).
Arguments BReturn {V} v.
Arguments BThread {V} nm behavior k.
Arguments BSleep {V} ticks k.
Arguments BThrow {V} e.

(** The thread factory handed to the body. *)
Definition addBehavioralThread (nm : string) (behavior : Generator) (s : System)
  : Except System :=
  match makeThread (fresh_tid s) nm None behavior with
  | Thrown e => Thrown e
  | Value thread =>
      let (thread', rt') := startThreadOperationIfNecessary thread (runtime s) in
      Value (mkSystem (activeThreads s) (set_add thread' (pendingThreads s))
                      (S (fresh_tid s)) (send rt'))
  end.

Fixpoint runBody {V : Type} (b : Body V) (s : System) : Except (V * System) :=
  match b with
  | BReturn v => Value (v, s)
  | BThread nm behavior k =>
      match addBehavioralThread nm behavior s with
      | Thrown e => Thrown e
      | Value s' => runBody k s'
      end
  | BSleep n k => runBody k (sleep n s)
  | BThrow e => Thrown e
  end.

(** How the scheduling loop (the operation given to [call]) ends. *)
Inductive LoopEnd : Type :=
| Broke (s : System)
| Raised (e : JsError) (s : System)
| Stuck (s : System)
| Exhausted.

(** One call of [schedule(activeThreads, channel)]. *)
Definition turn (s : System) : Turn := schedule (activeThreads s) (runtime s).

Definition after (s : System) (r : Turn) : System :=
  mkSystem (t_threads r) (pendingThreads s) (fresh_tid s) (t_rt r).

(** The inner [for (;;)]: schedule until a turn did no work. *)
Fixpoint iterate (fuel : nat) (s : System) : LoopEnd :=
  match fuel with
  | O => Exhausted
  | S f =>
      let r := turn s in
      match t_error r with
      | Some e => Raised e (after s r)
      | None => if t_didWork r then iterate f (after s r) else Broke (after s r)
      end
  end.

Definition incorporate (s : System) : System :=
  match pendingThreads s with
  | [] => s
  | _ => mkSystem (set_union (activeThreads s) (pendingThreads s)) []
                  (fresh_tid s) (runtime s)
  end.

(** [yield* heyThereIsANewPendingThread]: a fresh subscription. *)
Definition subscribe (s : System) : System :=
  mkSystem (activeThreads s) (pendingThreads s) (fresh_tid s)
           (mkRuntime (tasks (runtime s)) (clock (runtime s))
                      (fresh_task (runtime s)) (Some 0)).

Definition take (s : System) : option System :=
  match inbox (runtime s) with
  | Some (S n) =>
      Some (mkSystem (activeThreads s) (pendingThreads s) (fresh_tid s)
                     (mkRuntime (tasks (runtime s)) (clock (runtime s))
                                (fresh_task (runtime s)) (Some n)))
  | _ => None
  end.

Definition nextDue (pool : list Task) : option nat :=
  fold_right (fun k acc =>
                match task_op k, acc with
                | OpSettles n _, Some d => Some (Nat.min (started k + n) d)
                | OpSettles n _, None => Some (started k + n)
                | OpSuspend, _ => acc
                end) None pool.

(** [yield* pendingThreadNotifications.next()]: a queued message is taken
    at once; otherwise the scheduler waits until a task settles and sends.
    [None]: no message will ever come. *)
Definition awaitNotification (s : System) : option System :=
  match take s with
  | Some s' => Some s'
  | None =>
      match nextDue (tasks (runtime s)) with
      | Some d => take (settle (at_time (Nat.max d (clock (runtime s))) s))
      | None => None
      end
  end.

(** The outer [for (;;)]. *)
Fixpoint scheduler (fuel : nat) (s : System) : LoopEnd :=
  match fuel with
  | O => Exhausted
  | S f =>
      match iterate f (subscribe (incorporate s)) with
      | Broke s' =>
          match pendingThreads s' with
          | [] => Broke s'
          | _ =>
              match awaitNotification s' with
              | Some s'' => scheduler f s''
              | None => Stuck s'
              end
          end
      | other => other
      end
  end.

Inductive Completion (V : Type) : Type :=
| Returns (v : V) (final : System)
| Throws (e : JsError)
| Hangs
| OutOfFuel.
Arguments Returns {V} v final.
Arguments Throws {V} e.
Arguments Hangs {V}.
Arguments OutOfFuel {V}.

Definition initial : System := mkSystem [] [] 0 (mkRuntime [] 0 0 None).

(** [yield* heyThereIsANewPendingThread.close()] *)
Definition close (s : System) : System :=
  mkSystem (activeThreads s) (pendingThreads s) (fresh_tid s)
           (mkRuntime (tasks (runtime s)) (clock (runtime s))
                      (fresh_task (runtime s)) None).

(** What ends the [try] block: a [catch] logs the error and goes on. *)
Definition settleLoop {V : Type} (result : V) (l : LoopEnd) : Completion V :=
  match l with
  | Broke s => Returns result (close s)
  | Raised _ s => Returns result (close s)
  | Stuck _ => Hangs
  | Exhausted => OutOfFuel
  end.

Definition behavioralThreadSystem {V : Type} (fuel : nat) (body : Body V) : Completion V :=
  match runBody body initial with
  | Thrown e => Throws e
  | Value (result, s) => settleLoop result (scheduler fuel s)
  end.

(* ------------------------------------------------------------------ *)
(** ** Sample behaviors *)

Module Samples.

(** A body that yields the given syncs one after the other and catches
    nothing. *)
Definition script (l : list Sync) : Generator :=
  mkGenerator (list Sync) l
    (fun st _ => match st with [] => IterDone | s :: r => IterYield s r end)
    (fun _ e => IterRaise e).

(** The same inside [try { ... } catch { ... }]: a thrown error is caught
    and the body goes on with the syncs of [handler]. *)
Definition guarded (l handler : list Sync) : Generator :=
  mkGenerator (list Sync) l
    (fun st _ => match st with [] => IterDone | s :: r => IterYield s r end)
    (fun _ _ => match handler with [] => IterDone | s :: r => IterYield s r end).

(** Yields [first]; throws [e] as soon as it is resumed. *)
Definition faulty (first : Sync) (e : JsError) : Generator :=
  mkGenerator bool false
    (fun st _ => if st then IterRaise e else IterYield first true)
    (fun _ e' => IterRaise e').

Definition posting (l : list Event) : Sync :=
  makeSyncSpec (mkSyncOptions (Some l) None None None).

Definition waiting (f : Event -> bool) : Sync :=
  makeSyncSpec (mkSyncOptions None (Some f) None None).

Definition blocking (f : Event -> bool) : Sync :=
  makeSyncSpec (mkSyncOptions None None (Some f) None).

Definition executing (op : Operation) : Sync :=
  makeSyncSpec (mkSyncOptions None None None (Some op)).

Definition named (s : string) (e : Event) : bool := sameValueZero e (EStr s).

End Samples.

(* ------------------------------------------------------------------ *)
(** ** Scenarios *)

Module Scenarios.
Import Samples.

(** The state in which the scheduling loop runs its first turn, once the
    body has returned. *)
Definition firstTurn {V : Type} (b : Body V) : option System :=
  match runBody b initial with
  | Value (_, s) => Some (subscribe (incorporate s))
  | Thrown _ => None
  end.

(** The state in which the body leaves the system. *)
Definition afterBody {V : Type} (b : Body V) : System :=
  match runBody b initial with
  | Value (_, s) => s
  | Thrown _ => initial
  end.

(** The state in which the first pass of the loop runs its first turn. *)
Definition started {V : Type} (b : Body V) : System :=
  subscribe (incorporate (afterBody b)).

Definition view (t : Thread) : string * list Event * Exec :=
  (name t, post (sync t), exec (sync t)).

(** The timer of the README: an operation that takes 1000 ticks. *)
Definition timerOnly : Body nat :=
  BThread "timer" (script [executing (OpSettles 1000 (Ok (EStr "timeout")))])
  (BReturn 7).

(** A thread that requests [a] while its operation, which has settled with
    [b], is waiting to be harvested. *)
Definition requestAndRun : Body nat :=
  BThread "t"
    (script [makeSyncSpec (mkSyncOptions (Some [EStr "a"]) None None
                             (Some (OpSettles 1 (Ok (EStr "b")))))])
  (BSleep 5 (BReturn 7)).

(** An operation fails in a body that catches nothing, next to a thread
    that requests [x]. *)
Definition failingWorker : Body nat :=
  BThread "w" (script [executing (OpSettles 10 (Err "boom"))])
  (BThread "p" (script [posting [EStr "x"]])
  (BSleep 1000 (BReturn 7))).

(** A body throws when it is resumed with the event it asked for, next to
    a thread waiting for the same event. *)
Definition throwingPoster : Body nat :=
  BThread "f" (faulty (posting [EStr "x"]) "oops")
  (BThread "c" (script [waiting (named "x")])
  (BReturn 7)).

(** A thread blocks everything while its operation fails; its body catches
    the error and returns.  Another thread requests [x]. *)
Definition blockerFails : Body nat :=
  BThread "b"
    (guarded [makeSyncSpec (mkSyncOptions None None (Some (fun _ => true))
                              (Some (OpSettles 1 (Err "boom"))))] [])
  (BThread "p" (script [posting [EStr "x"]])
  (BSleep 5 (BReturn 7))).

(** Two threads request [x]; the operation of the second has settled
    with [y]. *)
Definition twoPosters : Body nat :=
  BThread "p" (script [posting [EStr "x"]])
  (BThread "q"
    (script [makeSyncSpec (mkSyncOptions (Some [EStr "x"]) None None
                             (Some (OpSettles 1 (Ok (EStr "y")))));
             posting [EStr "z"]])
  (BSleep 5 (BReturn 7))).

(** A worker waits for [timeout] while its operation runs; a second
    thread requests [timeout] at once. *)
Definition interrupted : Body nat :=
  BThread "worker"
    (script [makeSyncSpec (mkSyncOptions None (Some (named "timeout")) None
                             (Some (OpSettles 20 (Ok (EStr "done")))));
             posting [EStr "seen"]])
  (BThread "timer" (script [posting [EStr "timeout"]])
  (BReturn 7)).

(** A thread requests the empty string ahead of [go]. *)
Definition emptyString : list Thread :=
  [mkThread 0 "s" (posting [EStr EmptyString; EStr "go"]) (script []) 1].

Definition idle : Runtime := mkRuntime [] 0 0 (Some 0).

End Scenarios.

(* ------------------------------------------------------------------ *)
(** ** Vocabulary of the properties *)

(** The test of Phase C: the thread requested the event or waits for it. *)
Definition affected (selected : Event) (t : Thread) : bool :=
  includes (post (sync t)) selected || wait (sync t) selected.

(** What a turn that does no work finds: no exec that is done, and no
    truthy event to select. *)
Definition Idle (ts : list Thread) : Prop :=
  (forall t, In t ts -> forall r, exec (sync t) <> ExDone r) /\
  truthy (selectedEvent ts) = false.

(** The order of the sort of Phase B: higher priorities first. *)
Definition higher_first (a b : Thread) : Prop := (prio b <= prio a)%Z.

Definition at_prio (p : Z) (t : Thread) : bool := Z.eqb (prio t) p.

(** What Phase C makes of one thread that it resumes with [e]: nothing
    when the body finishes, else the thread with the body one step further
    and the sync that step yielded ([x] is the exec after the start of its
    operation). *)
Inductive Resumed (e : Event) (t : Thread) : list Thread -> Prop :=
| ResumedDone :
    next (proc t) e = StepDone -> Resumed e t []
| ResumedYield (value : Sync) (p : Generator) (x : Exec) :
    next (proc t) e = StepYield value p ->
    Resumed e t [mkThread (tid t) (name t)
                          (mkSync (post value) (wait value) (halt value) x)
                          p (prio t)].

Definition PhaseC (e : Event) (t : Thread) (out : list Thread) : Prop :=
  if affected e t then Resumed e t out else out = [t].

Definition spawned (k : nat) (rt : Runtime) : Prop := k < fresh_task rt.

(** Task [k] has been spawned and is no longer in the pool. *)
Definition dead (k : nat) (rt : Runtime) : Prop :=
  live k rt = false /\ k < fresh_task rt.

(** The runtime that a visit hands on. *)
Definition handsOn (P : Runtime -> Prop) (v : Visit) : Prop :=
  match v with
  | Untouched => True
  | Kept _ rt' => P rt'
  | Deleted rt' => P rt'
  | Escaped _ _ rt' => P rt'
  end.


(** [l1] is [l2] with some elements left out, the others in their order. *)
Inductive Subseq {A : Type} : list A -> list A -> Prop :=
| subseq_nil : Subseq [] []
| subseq_drop (x : A) (l1 l2 : list A) : Subseq l1 l2 -> Subseq l1 (x :: l2)
| subseq_keep (x : A) (l1 l2 : list A) : Subseq l1 l2 -> Subseq (x :: l1) (x :: l2).

(** What identifies a thread for its user: the object, its name and its
    priority. *)
Definition ident (t : Thread) : nat * string * Z := (tid t, name t, prio t).


(** A thread that requests nothing, waits for nothing and has no result to
    hand in. *)
Definition silent (t : Thread) : Prop :=
  post (sync t) = [] /\
  (forall e, wait (sync t) e = false) /\
  (forall r, exec (sync t) <> ExDone r).


(** A sync as [makeSyncSpec] builds it: its exec is none or pending. *)
Definition fresh (v : Sync) : Prop :=
  match exec v with
  | ExNone => True
  | ExPending _ => True
  | _ => False
  end.





(** The events that the turns of the inner loop select, in order. *)
Fixpoint selections (fuel : nat) (s : System) : list Event :=
  match fuel with
  | O => []
  | S f =>
      let r := turn s in
      match t_selected r with Some e => [e] | None => [] end
      ++ match t_error r with
         | Some _ => []
         | None => if t_didWork r then selections f (after s r) else []
         end
  end.

(** The two threads of the test "basic event coordination", for any list
    of events: a producer that requests them one after the other, and a
    consumer that waits for them one after the other. *)
Definition requesting (e : Event) : Sync := Samples.posting [e].

Definition awaiting (e : Event) : Sync :=
  Samples.waiting (fun x => sameValueZero x e).

Definition producer (es : list Event) : Generator := Samples.script (map requesting es).
Definition consumer (es : list Event) : Generator := Samples.script (map awaiting es).

Definition relay {V : Type} (es : list Event) (v : V) : Body V :=
  BThread "producer" (producer es) (BThread "consumer" (consumer es) (BReturn v)).

(** The two threads when the producer requests [e] and has [es] to go. *)
Definition relayAt (e : Event) (es : list Event) : list Thread :=
  [mkThread 0 "producer" (requesting e) (producer es) 1;
   mkThread 1 "consumer" (awaiting e) (consumer es) 1].

(* ------------------------------------------------------------------ *)
(** ** The game state of [tictactoe.ts]

    The board is an array of rows, each an array of cells; a cell holds
    ["X"], ["O"] or [null].  [arr[i]] is [undefined] unless [i] is an index
    of [arr]; reading a property of [undefined] throws a [TypeError].  The
    positions are taken to be integers. *)

Module TicTacToe.

Inductive Player : Type := PX | PO.

(** [None] is [null]. *)
Definition Cell : Type := option Player.
Definition Board : Type := list (list Cell).

Record Position : Type := mkPosition { row : Z; col : Z }.
Record Move : Type := mkMove { player : Player; position : Position }.

Definition player_eqb (a b : Player) : bool :=
  match a, b with
  | PX, PX => true
  | PO, PO => true
  | _, _ => false
  end.

(** [arr[i]] *)
Definition item {A : Type} (l : list A) (i : Z) : option A :=
  if Z.ltb i 0 then None else nth_error l (Z.to_nat i).

(** [arr[i] = x] for an index [i] of [arr] (the only use the code makes
    of it). *)
Fixpoint assign {A : Type} (l : list A) (i : nat) (x : A) : list A :=
  match l, i with
  | [], _ => []
  | _ :: r, O => x :: r
  | a :: r, S n => a :: assign r n x
  end.

Definition emptyBoard : Board :=
  [[None; None; None]; [None; None; None]; [None; None; None]].

(** [this.board[pos.row][pos.col]]: [None] is [undefined]. *)
Definition cellAt (b : Board) (pos : Position) : option Cell :=
  match item b (row pos) with
  | Some r => item r (col pos)
  | None => None
  end.

Definition isValidMove (b : Board) (pos : Position) : Except bool :=
  match item b (row pos) with
  | None => Thrown "TypeError"
  | Some r =>
      Value (match item r (col pos) with
             | Some None => true
             | _ => false
             end)
  end.

(** [makeMove] answers the board it leaves besides its boolean. *)
Definition makeMove (b : Board) (m : Move) : Except (bool * Board) :=
  match isValidMove b (position m) with
  | Thrown e => Thrown e
  | Value true =>
      match item b (row (position m)) with
      | Some r =>
          Value (true,
                 assign b (Z.to_nat (row (position m)))
                        (assign r (Z.to_nat (col (position m))) (Some (player m))))
      | None => Thrown "TypeError"
      end
  | Value false => Value (false, b)
  end.

(** [cell === player] *)
Definition holds (p : Player) (c : option Cell) : bool :=
  match c with
  | Some (Some q) => player_eqb q p
  | _ => false
  end.

(** The board keeps its three rows (see [shaped]); the branch for a row
    that is missing stands for the [TypeError] of [undefined.every]. *)
Definition checkWin (b : Board) (p : Player) : bool :=
  existsb (fun r => match nth_error b r with
                    | Some cells => forallb (fun c => holds p (Some c)) cells
                    | None => false
                    end) [0; 1; 2]
  || existsb (fun c => forallb (fun cells => holds p (nth_error cells c)) b) [0; 1; 2]
  || (holds p (cellAt b (mkPosition 0 0)) && holds p (cellAt b (mkPosition 1 1))
      && holds p (cellAt b (mkPosition 2 2)))
  || (holds p (cellAt b (mkPosition 0 2)) && holds p (cellAt b (mkPosition 1 1))
      && holds p (cellAt b (mkPosition 2 0))).

Definition isFull (b : Board) : bool :=
  forallb (fun cells => forallb (fun c : Cell => match c with
                                                 | Some _ => true
                                                 | None => false
                                                 end) cells) b.

(** Three rows of three cells. *)
Definition shaped (b : Board) : Prop :=
  List.length b = 3 /\ Forall (fun cells => List.length cells = 3) b.

(** The eight lines of the board. *)
Definition lines : list (list Position) :=
  [[mkPosition 0 0; mkPosition 0 1; mkPosition 0 2];
   [mkPosition 1 0; mkPosition 1 1; mkPosition 1 2];
   [mkPosition 2 0; mkPosition 2 1; mkPosition 2 2];
   [mkPosition 0 0; mkPosition 1 0; mkPosition 2 0];
   [mkPosition 0 1; mkPosition 1 1; mkPosition 2 1];
   [mkPosition 0 2; mkPosition 1 2; mkPosition 2 2];
   [mkPosition 0 0; mkPosition 1 1; mkPosition 2 2];
   [mkPosition 0 2; mkPosition 1 1; mkPosition 2 0]].

(** The number of squares that are taken. *)
Definition taken (b : Board) : nat :=
  List.length (filter (fun c : Cell => match c with Some _ => true | None => false end)
                      (List.concat b)).

End TicTacToe.

(* ------------------------------------------------------------------ *)
(** ** The loop over a thread set *)

Section ForEach.
Variable visit : Thread -> Runtime -> Visit.

Lemma forEach_selected (ts : list Thread) (rt : Runtime) :
  t_selected (forEach visit ts rt) = None.
Proof.
  destruct ts as [|t rest]; simpl; [reflexivity|].
  destruct (visit t rt); reflexivity.
Qed.


(** A loop that runs to its end has visited every thread. *)
Lemma forEach_visited (ts : list Thread) (rt : Runtime) (t : Thread) :
  t_error (forEach visit ts rt) = None ->
  In t ts ->
  exists rt0, match visit t rt0 with
              | Untouched => In t (t_threads (forEach visit ts rt))
              | Kept t' _ => In t' (t_threads (forEach visit ts rt)) /\
                             t_didWork (forEach visit ts rt) = true
              | Deleted _ => t_didWork (forEach visit ts rt) = true
              | Escaped _ _ _ => False
              end.
Proof.
  revert rt. induction ts as [|a ts IH]; intros rt Hok Hin; [destruct Hin|].
  destruct Hin as [->|Hin].
  - exists rt. simpl in *. destruct (visit t rt); simpl in *; auto. discriminate.
  - simpl in *.
    destruct (visit a rt) as [|a' rt1|rt1|e1 a' rt1]; simpl in *; try discriminate;
      destruct (IH _ Hok Hin) as [rt0 H]; exists rt0;
      destruct (visit t rt0); simpl; intuition.
Qed.

End ForEach.

(** What Phase A does to a thread does not depend on the runtime, when its
    operation succeeded. *)
Lemma harvestThread_ok (t : Thread) (rt : Runtime) (v : Event) :
  exec (sync t) = ExDone (Ok v) ->
  harvestThread t rt = Kept (set_post (set_exec t ExNone) [v]) rt.
Proof. intros H. unfold harvestThread. rewrite H. reflexivity. Qed.

Lemma schedule_selected_truthy (ts : list Thread) (rt : Runtime) (e : Event) :
  t_selected (schedule ts rt) = Some e ->
  t_error (harvest ts rt) = None /\
  e = selectedEvent (t_threads (harvest ts rt)) /\ truthy e = true.
Proof.
  unfold schedule. destruct (t_error (harvest ts rt)) eqn:He.
  - unfold harvest. rewrite forEach_selected. discriminate.
  - destruct (truthy (selectedEvent (t_threads (harvest ts rt)))) eqn:Ht; simpl.
    + intros H. injection H as <-. auto.
    + unfold harvest. rewrite forEach_selected. discriminate.
Qed.

(* ------------------------------------------------------------------ *)
(** ** Phase A: a harvested value *)

(** C2, as the code has it: when the harvest loop runs to its end, every
    active thread whose exec is done(ok v) is left with exec none and with
    a post list that is exactly [v] (what it requested before is dropped);
    its wait, halt, body, name and priority are untouched, and the turn
    did work. *)
Theorem harvest_replaces_post (ts : list Thread) (rt : Runtime) (t : Thread) (v : Event) :
  t_error (harvest ts rt) = None ->
  In t ts ->
  exec (sync t) = ExDone (Ok v) ->
  In (mkThread (tid t) (name t)
               (mkSync [v] (wait (sync t)) (halt (sync t)) ExNone)
               (proc t) (prio t))
     (t_threads (harvest ts rt)) /\
  t_didWork (harvest ts rt) = true.
Proof.
  intros Hok Hin Hx.
  destruct (forEach_visited harvestThread ts rt t Hok Hin) as [rt0 H].
  rewrite (harvestThread_ok t rt0 v Hx) in H. exact H.
Qed.

Lemma harvest_replaces_post_witness :
  exists s t,
    Scenarios.firstTurn Scenarios.requestAndRun = Some s /\
    activeThreads s = [t] /\
    In (mkThread (tid t) (name t)
                 (mkSync [EStr "b"] (wait (sync t)) (halt (sync t)) ExNone)
                 (proc t) (prio t))
       (t_threads (harvest (activeThreads s) (runtime s))).
Proof.
  eexists. eexists. split; [reflexivity|]. split; [reflexivity|].
  apply (harvest_replaces_post _ _ _ (EStr "b")); [reflexivity | left; reflexivity | reflexivity].
Defined.

(** C2 fails as stated: a thread that requested [a] and whose operation
    settled with [b] requests only [b] after Phase A, not [a] then [b]. *)
Lemma harvest_does_not_append :
  exists s t,
    Scenarios.firstTurn Scenarios.requestAndRun = Some s /\
    activeThreads s = [t] /\
    post (sync t) = [EStr "a"] /\
    exec (sync t) = ExDone (Ok (EStr "b")) /\
    map Scenarios.view (t_threads (harvest (activeThreads s) (runtime s)))
    = [("t", [EStr "b"], ExNone)] /\
    map (fun x => post (sync x)) (t_threads (harvest (activeThreads s) (runtime s)))
    <> [post (sync t) ++ [EStr "b"]].
Proof.
  eexists. eexists. split; [reflexivity|]. split; [reflexivity|].
  repeat split; try reflexivity. discriminate.
Qed.

(* ------------------------------------------------------------------ *)
(** ** Phase B and the truthiness gate *)

(** C10: when the first candidate that nobody blocks is a falsy value, the
    whole turn is Phase A alone (no thread is advanced, no event is
    recorded as selected, "did work" is what the harvest says); and an
    event that a turn delivers is always truthy, so a falsy event is never
    delivered to any body. *)
Theorem falsy_event_is_not_selected (ts : list Thread) (rt : Runtime) :
  (forall x,
      t_error (harvest ts rt) = None ->
      findEvent (t_threads (harvest ts rt)) = Some x ->
      truthy x = false ->
      schedule ts rt = harvest ts rt /\ t_selected (schedule ts rt) = None) /\
  (forall e, t_selected (schedule ts rt) = Some e -> truthy e = true).
Proof.
  split.
  - intros x Hok Hf Hx. unfold schedule. rewrite Hok.
    unfold selectedEvent. rewrite Hf, Hx.
    split; [reflexivity|]. unfold harvest. apply forEach_selected.
  - intros e H. apply schedule_selected_truthy in H. tauto.
Qed.

Lemma falsy_event_is_not_selected_witness :
  findEvent Scenarios.emptyString = Some (EStr EmptyString) /\
  schedule Scenarios.emptyString Scenarios.idle
  = harvest Scenarios.emptyString Scenarios.idle /\
  t_didWork (schedule Scenarios.emptyString Scenarios.idle) = false.
Proof.
  split; [reflexivity|].
  destruct (falsy_event_is_not_selected Scenarios.emptyString Scenarios.idle) as [H _].
  destruct (H (EStr EmptyString)) as [Heq _]; try reflexivity.
  split; [exact Heq|]. rewrite Heq. reflexivity.
Defined.

(* ------------------------------------------------------------------ *)
(** ** Admission *)

(** C5, as the code has it: a behavior that completes on its first
    [next()] makes [makeThread] answer the sentinel (priority 0, empty
    sync: nothing requested, nothing waited for, nothing blocked, no
    operation), and the thread factory adds that sentinel to the pending
    set like any other thread. *)
Theorem sentinel_joins_pending (nm : string) (pr : option Z) (behavior : Generator)
        (s : System) :
  next behavior EUndefined = StepDone ->
  has (pendingThreads s) (createEmptyThread (fresh_tid s) nm) = false ->
  makeThread (fresh_tid s) nm pr behavior = Value (createEmptyThread (fresh_tid s) nm) /\
  prio (createEmptyThread (fresh_tid s) nm) = 0%Z /\
  sync (createEmptyThread (fresh_tid s) nm) = makeSyncSpec noOptions /\
  post (makeSyncSpec noOptions) = [] /\
  exec (makeSyncSpec noOptions) = ExNone /\
  (forall e, wait (makeSyncSpec noOptions) e = false /\
             halt (makeSyncSpec noOptions) e = false) /\
  exists s',
    addBehavioralThread nm behavior s = Value s' /\
    pendingThreads s' = pendingThreads s ++ [createEmptyThread (fresh_tid s) nm] /\
    activeThreads s' = activeThreads s.
Proof.
  intros Hd Hfresh.
  assert (Hm : forall p, makeThread (fresh_tid s) nm p behavior
                         = Value (createEmptyThread (fresh_tid s) nm)).
  { intros p. unfold makeThread. rewrite Hd. reflexivity. }
  split; [apply Hm|]. do 4 (split; [reflexivity|]). split; [intros e; split; reflexivity|].
  eexists. unfold addBehavioralThread. rewrite Hm. simpl.
  split; [reflexivity|]. simpl. unfold set_add. rewrite Hfresh. auto.
Qed.

Lemma sentinel_joins_pending_witness :
  exists s',
    addBehavioralThread "e" (Samples.script []) initial = Value s' /\
    pendingThreads s' = pendingThreads initial ++ [createEmptyThread 0 "e"] /\
    activeThreads s' = activeThreads initial.
Proof.
  destruct (sentinel_joins_pending "e" None (Samples.script []) initial) as (_ & _ & _ & _ & _ & _ & H);
    [reflexivity | reflexivity | exact H].
Defined.

(** C5 fails as stated: admitting a behavior that finishes at once makes
    the pending set grow by the sentinel. *)
Lemma sentinel_is_not_omitted :
  next (Samples.script []) EUndefined = StepDone /\
  exists s',
    addBehavioralThread "e" (Samples.script []) initial = Value s' /\
    pendingThreads initial = [] /\
    pendingThreads s' = [createEmptyThread 0 "e"] /\
    pendingThreads s' <> pendingThreads initial.
Proof.
  split; [reflexivity|]. eexists. split; [reflexivity|].
  repeat split. discriminate.
Qed.

(* ------------------------------------------------------------------ *)
(** ** Errors that leave a turn *)

Lemma forEach_app (visit : Thread -> Runtime -> Visit) (pre l : list Thread)
      (rt : Runtime) :
  t_error (forEach visit pre rt) = None ->
  t_threads (forEach visit (pre ++ l) rt)
  = t_threads (forEach visit pre rt)
    ++ t_threads (forEach visit l (t_rt (forEach visit pre rt))) /\
  t_rt (forEach visit (pre ++ l) rt)
  = t_rt (forEach visit l (t_rt (forEach visit pre rt))) /\
  t_error (forEach visit (pre ++ l) rt)
  = t_error (forEach visit l (t_rt (forEach visit pre rt))).
Proof.
  revert rt. induction pre as [|a pre IH]; intros rt Hok; simpl in *; [auto|].
  destruct (visit a rt) as [|a' rt1|rt1|e1 a' rt1]; simpl in *; try discriminate;
    destruct (IH _ Hok) as (Ht & Hr & He); rewrite Ht, Hr, He; auto.
Qed.









(* ------------------------------------------------------------------ *)
(** ** What [behavioralThreadSystem] answers *)

Lemma behavioralThreadSystem_unfold (V : Type) (fuel : nat) (body : Body V)
      (result : V) (s : System) :
  runBody body initial = Value (result, s) ->
  behavioralThreadSystem fuel body = settleLoop result (scheduler fuel s).
Proof. intros H. unfold behavioralThreadSystem. rewrite H. reflexivity. Qed.

(** C4, as the code has it: once the body has returned, an error raised
    inside the scheduling loop is caught by the [catch] around the loop;
    [behavioralThreadSystem] returns the body's result, and never throws. *)
Theorem scheduler_error_is_swallowed (V : Type) (fuel : nat) (body : Body V)
        (result : V) (s : System) :
  runBody body initial = Value (result, s) ->
  (forall e s', scheduler fuel s = Raised e s' ->
                behavioralThreadSystem fuel body = Returns result (close s')) /\
  (forall e, behavioralThreadSystem fuel body <> Throws e).
Proof.
  intros Hb. rewrite (behavioralThreadSystem_unfold V fuel body result s Hb). split.
  - intros e s' H. rewrite H. reflexivity.
  - intros e. destruct (scheduler fuel s); discriminate.
Qed.

Lemma scheduler_error_is_swallowed_witness :
  exists s s',
    runBody Scenarios.throwingPoster initial = Value (7, s) /\
    scheduler 3 s = Raised "oops" s' /\
    behavioralThreadSystem 3 Scenarios.throwingPoster = Returns 7 (close s').
Proof.
  eexists. eexists. split; [reflexivity|]. split; [reflexivity|].
  eapply (scheduler_error_is_swallowed nat 3 Scenarios.throwingPoster 7);
    reflexivity.
Defined.

(** C4 fails as stated: the loop is left by the error [oops], and the
    caller of [behavioralThreadSystem] gets a normal return. *)
Lemma scheduler_error_does_not_surface :
  exists s s',
    runBody Scenarios.throwingPoster initial = Value (7, s) /\
    scheduler 3 s = Raised "oops" s' /\
    behavioralThreadSystem 3 Scenarios.throwingPoster = Returns 7 (close s') /\
    behavioralThreadSystem 3 Scenarios.throwingPoster <> Throws "oops".
Proof.
  eexists. eexists. split; [reflexivity|]. split; [reflexivity|].
  split; [reflexivity|]. discriminate.
Qed.

Lemma forEach_no_work (visit : Thread -> Runtime -> Visit) (ts : list Thread)
      (rt : Runtime) :
  t_didWork (forEach visit ts rt) = false ->
  t_error (forEach visit ts rt) = None ->
  t_threads (forEach visit ts rt) = ts /\
  t_rt (forEach visit ts rt) = rt /\
  forall t, In t ts -> visit t rt = Untouched.
Proof.
  induction ts as [|a ts IH]; simpl.
  - intros _ _. repeat split. intros t [].
  - destruct (visit a rt) as [|a' rt'|rt'|e a' rt'] eqn:Hv; simpl; try discriminate.
    intros Hw He. destruct (IH Hw He) as (Ht & Hr & Hall).
    rewrite Ht, Hr. repeat split. intros t [<-|Hin]; auto.
Qed.

(** A turn that did no work changed nothing, and found the system idle. *)
Lemma idle_turn (ts : list Thread) (rt : Runtime) :
  t_didWork (schedule ts rt) = false ->
  t_error (schedule ts rt) = None ->
  t_threads (schedule ts rt) = ts /\ t_rt (schedule ts rt) = rt /\ Idle ts.
Proof.
  unfold schedule. destruct (t_error (harvest ts rt)) eqn:He.
  - intros _ H. congruence.
  - destruct (truthy (selectedEvent (t_threads (harvest ts rt)))) eqn:Ht;
      simpl; [discriminate|].
    intros Hw _. destruct (forEach_no_work harvestThread ts rt Hw He) as (Hth & Hr & Hall).
    unfold harvest in *. rewrite Hth in *. split; [reflexivity|]. split; [exact Hr|].
    split; [|exact Ht].
    intros t Hin r Hx. specialize (Hall t Hin). unfold harvestThread in Hall.
    rewrite Hx in Hall. destruct r as [v|e]; [discriminate|].
    destruct (throw (proc t) e); try discriminate.
    destruct (startThreadOperationIfNecessary (advanced t value proc') rt); discriminate.
Qed.

Lemma iterate_broke (fuel : nat) (s s' : System) :
  iterate fuel s = Broke s' ->
  Idle (activeThreads s') /\ pendingThreads s' = pendingThreads s.
Proof.
  revert s. induction fuel as [|f IH]; intros s; simpl; [discriminate|].
  destruct (t_error (turn s)) eqn:He; [discriminate|].
  destruct (t_didWork (turn s)) eqn:Hw.
  - intros H. destruct (IH _ H) as [Hi Hp]. split; [exact Hi | exact Hp].
  - intros H. injection H as <-. simpl.
    destruct (idle_turn _ _ Hw He) as (Ht & _ & Hi). unfold turn in *.
    rewrite Ht. auto.
Qed.

Lemma scheduler_broke (fuel : nat) (s s' : System) :
  scheduler fuel s = Broke s' ->
  Idle (activeThreads s') /\ pendingThreads s' = [].
Proof.
  revert s. induction fuel as [|f IH]; intros s; simpl; [discriminate|].
  destruct (iterate f (subscribe (incorporate s))) as [s1|e1 s1|s1|] eqn:Hi;
    try discriminate.
  destruct (pendingThreads s1) eqn:Hp.
  - intros H. injection H as <-. split; [apply (iterate_broke _ _ _ Hi) | exact Hp].
  - destruct (awaitNotification s1); [apply IH | discriminate].
Qed.

(** C1, as the code has it: when [behavioralThreadSystem] returns, the
    body had returned the same value.  Either the scheduling loop was left
    by an error, which the [catch] discarded; or it broke out after a turn
    that did no work, and then no thread is pending, no active thread has
    an exec that is done, and the first requested event that no active
    thread halts, if there is one, is falsy.  (Nothing is said of an exec
    that is running.) *)
Theorem returns_after_idle_turn (V : Type) (fuel : nat) (body : Body V)
        (v : V) (final : System) :
  behavioralThreadSystem fuel body = Returns v final ->
  exists s,
    runBody body initial = Value (v, s) /\
    ((exists e s', scheduler fuel s = Raised e s' /\ final = close s') \/
     (exists s', scheduler fuel s = Broke s' /\ final = close s' /\
                 pendingThreads final = [] /\
                 (forall t, In t (activeThreads final) ->
                            forall r, exec (sync t) <> ExDone r) /\
                 truthy (selectedEvent (activeThreads final)) = false /\
                 (forall e, findEvent (activeThreads final) = Some e ->
                            truthy e = false))).
Proof.
  unfold behavioralThreadSystem.
  destruct (runBody body initial) as [[result s]|e] eqn:Hb; [|discriminate].
  destruct (scheduler fuel s) as [s'|e s'|s'|] eqn:Hs; simpl; try discriminate;
    intros H; injection H as <- <-; exists s; (split; [reflexivity|]).
  - right. exists s'. split; [exact Hs|]. split; [reflexivity|].
    destruct (scheduler_broke _ _ _ Hs) as [[Hd Hq] Hp]. simpl.
    split; [exact Hp|]. split; [exact Hd|]. split; [exact Hq|].
    intros e He. unfold selectedEvent in Hq. rewrite He in Hq. exact Hq.
  - left. exists e, s'. auto.
Qed.

Lemma returns_after_idle_turn_witness :
  behavioralThreadSystem 5 Scenarios.timerOnly
  = Returns 7 (close (after (subscribe (incorporate (Scenarios.afterBody Scenarios.timerOnly)))
                            (turn (subscribe (incorporate (Scenarios.afterBody Scenarios.timerOnly)))))) /\
  exists s, runBody Scenarios.timerOnly initial = Value (7, s).
Proof.
  assert (H : behavioralThreadSystem 5 Scenarios.timerOnly
              = Returns 7 (close (after (subscribe (incorporate (Scenarios.afterBody Scenarios.timerOnly)))
                                        (turn (subscribe (incorporate (Scenarios.afterBody Scenarios.timerOnly)))))))
    by reflexivity.
  split; [exact H|].
  destruct (returns_after_idle_turn nat 5 Scenarios.timerOnly 7 _ H) as (s & Hs & _).
  exists s. exact Hs.
Defined.

(** C1 fails as stated.  With the timer thread of the README, whose
    operation needs 1000 ticks, [behavioralThreadSystem] returns at once
    while the thread is active and its exec is running (task 0 is in the
    pool).  And with a worker whose failed operation is not caught, it
    returns while [x] is requested and halted by nobody. *)
Lemma returns_without_quiescence :
  (exists final t,
      behavioralThreadSystem 5 Scenarios.timerOnly = Returns 7 final /\
      activeThreads final = [t] /\
      exec (sync t) = ExRunning 0 /\
      live 0 (runtime final) = true) /\
  (exists final,
      behavioralThreadSystem 5 Scenarios.failingWorker = Returns 7 final /\
      In (EStr "x") (candidates (activeThreads final)) /\
      halted (activeThreads final) (EStr "x") = false).
Proof.
  split.
  - eexists. eexists. repeat split.
  - eexists. split; [reflexivity|]. split; [|reflexivity]. simpl. auto.
Qed.

(* ------------------------------------------------------------------ *)
(** ** Phase B: the order of the candidates *)

Lemma insert_prio_perm (t : Thread) (l : list Thread) :
  Permutation (insert_prio t l) (t :: l).
Proof.
  induction l as [|x r IH]; simpl; [apply Permutation_refl|].
  destruct (Z.ltb (prio t) (prio x)); [|apply Permutation_refl].
  apply perm_trans with (x :: t :: r); [apply perm_skip, IH | apply perm_swap].
Qed.

Lemma sort_prio_perm (l : list Thread) : Permutation (sort_prio l) l.
Proof.
  induction l as [|t r IH]; simpl; [apply perm_nil|].
  apply perm_trans with (t :: sort_prio r); [apply insert_prio_perm | apply perm_skip, IH].
Qed.

Lemma insert_prio_sorted (t : Thread) (l : list Thread) :
  StronglySorted higher_first l -> StronglySorted higher_first (insert_prio t l).
Proof.
  induction l as [|x r IH]; intros Hs; simpl.
  - constructor; constructor.
  - inversion Hs as [|? ? Hr Hx]; subst.
    destruct (Z.ltb (prio t) (prio x)) eqn:Hlt.
    + apply Z.ltb_lt in Hlt. constructor; [apply IH, Hr|].
      eapply Permutation_Forall; [apply Permutation_sym, insert_prio_perm|].
      constructor; [unfold higher_first; lia | exact Hx].
    + apply Z.ltb_ge in Hlt. constructor; [exact Hs|].
      constructor; [exact Hlt|].
      apply Forall_impl with (P := higher_first x); [|exact Hx].
      unfold higher_first. intros; lia.
Qed.

Lemma sort_prio_sorted (l : list Thread) : StronglySorted higher_first (sort_prio l).
Proof.
  induction l as [|t r IH]; simpl; [constructor | apply insert_prio_sorted, IH].
Qed.

Lemma insert_prio_stable (p : Z) (t : Thread) (l : list Thread) :
  filter (at_prio p) (insert_prio t l) = filter (at_prio p) (t :: l).
Proof.
  induction l as [|x r IH]; simpl; [reflexivity|].
  destruct (Z.ltb (prio t) (prio x)) eqn:Hlt; [|reflexivity].
  apply Z.ltb_lt in Hlt. simpl in *. unfold at_prio in *.
  destruct (Z.eqb (prio x) p) eqn:Hx; rewrite IH;
    destruct (Z.eqb (prio t) p) eqn:Ht; try reflexivity.
  apply Z.eqb_eq in Hx, Ht. lia.
Qed.

(** The sort is stable: threads of one priority keep the order in which
    the set iterates them, that is, the order of their insertion. *)
Lemma sort_prio_stable (p : Z) (l : list Thread) :
  filter (at_prio p) (sort_prio l) = filter (at_prio p) l.
Proof.
  induction l as [|t r IH]; simpl; [reflexivity|].
  rewrite insert_prio_stable. simpl. rewrite IH. reflexivity.
Qed.

Lemma find_first {A : Type} (f : A -> bool) (l : list A) (x : A) :
  find f l = Some x ->
  f x = true /\
  exists before rest, l = before ++ x :: rest /\ forall y, In y before -> f y = false.
Proof.
  induction l as [|a l IH]; simpl; [discriminate|].
  destruct (f a) eqn:Ha.
  - intros H. injection H as <-. split; [exact Ha|].
    exists [], l. split; [reflexivity | intros y []].
  - intros H. destruct (IH H) as (Hx & before & rest & -> & Hb).
    split; [exact Hx|]. exists (a :: before), rest. split; [reflexivity|].
    intros y [<-|Hy]; auto.
Qed.

Lemma halted_false (ts : list Thread) (e : Event) :
  halted ts e = false <-> forall y, In y ts -> halt (sync y) e = false.
Proof.
  unfold halted. induction ts as [|a ts IH]; simpl.
  - split; [intros _ y [] | reflexivity].
  - rewrite Bool.orb_false_iff, IH. split.
    + intros [Ha H] y [<-|Hy]; auto.
    + intros H. split; [apply H; auto | intros y Hy; apply H; auto].
Qed.

(** Phase A leaves the halt predicate of a thread alone, unless it throws
    an error into the body. *)
Lemma harvest_keeps_halt (ts : list Thread) (rt : Runtime) (y : Thread) :
  t_error (harvest ts rt) = None ->
  In y ts ->
  (forall err, exec (sync y) <> ExDone (Err err)) ->
  exists y', In y' (t_threads (harvest ts rt)) /\
             halt (sync y') = halt (sync y) /\ tid y' = tid y.
Proof.
  intros Hok Hin Hx.
  destruct (forEach_visited harvestThread ts rt y Hok Hin) as [rt0 H].
  unfold harvestThread in H.
  destruct (exec (sync y)) as [| |k|[v|err]] eqn:He;
    try (exists y; split; [exact H | split; reflexivity]).
  - destruct H as [H _]. eexists. split; [exact H|]. split; reflexivity.
  - exfalso. apply (Hx err). reflexivity.
Qed.

(** C6, as the code has it.  The candidates are the post lists, each in
    its declared order, of the threads that are active after Phase A,
    taken by descending priority, equal priorities in the order of
    insertion.  The selected event is the first candidate that no thread
    active after Phase A halts; it is halted by no thread active after
    Phase A, hence by no thread that was active at the start of the turn
    and into which Phase A did not throw an error; and when every
    candidate is halted, no event is selected. *)
Theorem selected_is_first_unblocked (ts : list Thread) (rt : Runtime) :
  candidates (t_threads (harvest ts rt))
  = flat_map (fun x => post (sync x)) (sort_prio (t_threads (harvest ts rt))) /\
  Permutation (sort_prio (t_threads (harvest ts rt))) (t_threads (harvest ts rt)) /\
  StronglySorted higher_first (sort_prio (t_threads (harvest ts rt))) /\
  (forall p, filter (at_prio p) (sort_prio (t_threads (harvest ts rt)))
             = filter (at_prio p) (t_threads (harvest ts rt))) /\
  (forall e,
      t_selected (schedule ts rt) = Some e ->
      (exists before rest,
          candidates (t_threads (harvest ts rt)) = before ++ e :: rest /\
          forall x, In x before -> halted (t_threads (harvest ts rt)) x = true) /\
      (forall y, In y (t_threads (harvest ts rt)) -> halt (sync y) e = false) /\
      (forall y, In y ts -> (forall err, exec (sync y) <> ExDone (Err err)) ->
                 halt (sync y) e = false)) /\
  (forall e,
      t_error (harvest ts rt) = None ->
      findEvent (t_threads (harvest ts rt)) = Some e ->
      truthy e = true ->
      t_selected (schedule ts rt) = Some e) /\
  ((forall x, In x (candidates (t_threads (harvest ts rt))) ->
              halted (t_threads (harvest ts rt)) x = true) ->
   t_selected (schedule ts rt) = None).
Proof.
  assert (Hsel : forall e,
             t_selected (schedule ts rt) = Some e ->
             t_error (harvest ts rt) = None /\
             halted (t_threads (harvest ts rt)) e = false /\
             exists before rest,
               candidates (t_threads (harvest ts rt)) = before ++ e :: rest /\
               forall x, In x before -> halted (t_threads (harvest ts rt)) x = true).
  { intros e H. apply schedule_selected_truthy in H. destruct H as (Hok & He & Ht).
    unfold selectedEvent in He.
    destruct (findEvent (t_threads (harvest ts rt))) as [x|] eqn:Hf.
    - subst x. apply find_first in Hf. destruct Hf as (Hn & before & rest & Hc & Hb).
      split; [exact Hok|]. split; [apply Bool.negb_true_iff, Hn|].
      exists before, rest. split; [exact Hc|].
      intros x Hx. apply Bool.negb_false_iff, Hb, Hx.
    - subst e. discriminate. }
  split; [reflexivity|]. split; [apply sort_prio_perm|].
  split; [apply sort_prio_sorted|]. split; [intros p; apply sort_prio_stable|].
  split; [|split].
  - intros e H. destruct (Hsel e H) as (Hok & Hh & Hex).
    split; [exact Hex|]. split.
    + apply halted_false, Hh.
    + intros y Hy Hx.
      destruct (harvest_keeps_halt ts rt y Hok Hy Hx) as (y' & Hin & Heq & _).
      rewrite <- Heq. apply (proj1 (halted_false _ e) Hh y' Hin).
  - intros e Hok Hf Ht. unfold schedule. rewrite Hok.
    unfold selectedEvent. rewrite Hf, Ht. reflexivity.
  - intros Hall. destruct (t_selected (schedule ts rt)) as [e|] eqn:H; [|reflexivity].
    destruct (Hsel e eq_refl) as (_ & Hh & before & rest & Hc & _).
    rewrite Hall in Hh; [discriminate|]. rewrite Hc. apply in_elt.
Qed.

Lemma selected_is_first_unblocked_witness :
  exists s,
    Scenarios.firstTurn Scenarios.twoPosters = Some s /\
    t_selected (turn s) = Some (EStr "x") /\
    forall y, In y (t_threads (harvest (activeThreads s) (runtime s))) ->
              halt (sync y) (EStr "x") = false.
Proof.
  eexists. split; [reflexivity|]. split; [reflexivity|].
  match goal with
  | |- forall y, In y (t_threads (harvest ?ts ?rt)) -> _ =>
      destruct (selected_is_first_unblocked ts rt) as (_ & _ & _ & _ & H & _)
  end.
  destruct (H (EStr "x")) as (_ & Hh & _); [reflexivity | exact Hh].
Defined.

(** C6 fails as stated for "every thread active at turn start": the
    thread [b] is active when the turn starts and halts every event; Phase
    A throws the error of its operation into its body, which finishes, and
    the same turn selects [x]. *)
Lemma selected_may_be_halted_at_turn_start :
  exists s b p,
    Scenarios.firstTurn Scenarios.blockerFails = Some s /\
    activeThreads s = [b; p] /\
    halt (sync b) (EStr "x") = true /\
    t_selected (turn s) = Some (EStr "x").
Proof. eexists. eexists. eexists. repeat split. Qed.

(* ------------------------------------------------------------------ *)
(** ** Tasks: identifiers are never used twice *)

Section Invariants.
Variable P : Runtime -> Prop.

Lemma forEach_hands_on (visit : Thread -> Runtime -> Visit) :
  (forall t rt, P rt -> handsOn P (visit t rt)) ->
  forall ts rt, P rt -> P (t_rt (forEach visit ts rt)).
Proof.
  intros Hv ts. induction ts as [|a ts IH]; intros rt Hrt; simpl; [exact Hrt|].
  specialize (Hv a rt Hrt).
  destruct (visit a rt); simpl in *; auto.
Qed.

Hypothesis P_send : forall rt, P rt -> P (send rt).
Hypothesis P_spawn : forall t op rt, P rt -> P (snd (spawn t op rt)).
Hypothesis P_halt : forall k rt, P rt -> P (haltTask k rt).

Lemma start_hands_on (t : Thread) (rt : Runtime) :
  P rt -> P (snd (startThreadOperationIfNecessary t rt)).
Proof.
  intros H. unfold startThreadOperationIfNecessary.
  destruct (exec (sync t)); simpl; auto.
  exact (P_spawn t op rt H).
Qed.

Lemma harvestThread_hands_on (t : Thread) (rt : Runtime) :
  P rt -> handsOn P (harvestThread t rt).
Proof.
  intros H. unfold harvestThread.
  destruct (exec (sync t)) as [| | |[v|e]]; simpl; auto.
  destruct (throw (proc t) e) as [value p| |e']; simpl; auto.
  pose proof (start_hands_on (advanced t value p) rt H) as Hs.
  destruct (startThreadOperationIfNecessary (advanced t value p) rt). exact Hs.
Qed.

Lemma advanceThread_hands_on (e : Event) (t : Thread) (rt : Runtime) :
  P rt -> handsOn P (advanceThread e t rt).
Proof.
  intros H. unfold advanceThread.
  destruct (includes (post (sync t)) e || wait (sync t) e); simpl; auto.
  assert (Hc : P (snd (match exec (sync t) with
                       | ExRunning k => (set_exec t ExNone, haltTask k rt)
                       | _ => (t, rt)
                       end))).
  { destruct (exec (sync t)); simpl; auto. }
  destruct (match exec (sync t) with
            | ExRunning k => (set_exec t ExNone, haltTask k rt)
            | _ => (t, rt)
            end) as [t1 rt1]. simpl in Hc.
  destruct (next (proc t1) e) as [value p| |e']; simpl; auto.
  pose proof (start_hands_on (advanced t1 value p) rt1 Hc) as Hs.
  destruct (startThreadOperationIfNecessary (advanced t1 value p) rt1). exact Hs.
Qed.


End Invariants.

Lemma spawned_send k rt : spawned k rt -> spawned k (send rt).
Proof. auto. Qed.

Lemma spawned_spawn k t op rt : spawned k rt -> spawned k (snd (spawn t op rt)).
Proof. unfold spawned. simpl. lia. Qed.

Lemma spawned_halt k k' rt : spawned k rt -> spawned k (haltTask k' rt).
Proof. unfold spawned, haltTask. destruct (live k' rt); simpl; auto. Qed.

Lemma dead_send k rt : dead k rt -> dead k (send rt).
Proof. auto. Qed.

Lemma dead_spawn k t op rt : dead k rt -> dead k (snd (spawn t op rt)).
Proof.
  unfold dead, live. simpl. intros [Hl Hk]. split; [|lia].
  rewrite existsb_app, Hl. simpl.
  rewrite Bool.orb_false_r. apply Nat.eqb_neq. lia.
Qed.

Lemma live_filter k (f : Task -> bool) (pool : list Task) :
  existsb (fun x => Nat.eqb (task_id x) k) pool = false ->
  existsb (fun x => Nat.eqb (task_id x) k) (filter f pool) = false.
Proof.
  induction pool as [|a pool IH]; simpl; [auto|].
  intros H. apply Bool.orb_false_iff in H. destruct H as [Ha Hp].
  destruct (f a); simpl; [rewrite Ha|]; auto.
Qed.

Lemma live_filter_self k (pool : list Task) :
  existsb (fun x => Nat.eqb (task_id x) k)
          (filter (fun x => negb (Nat.eqb (task_id x) k)) pool) = false.
Proof.
  induction pool as [|a pool IH]; simpl; [reflexivity|].
  destruct (Nat.eqb (task_id a) k) eqn:Ha; simpl; [exact IH|].
  rewrite Ha. exact IH.
Qed.

Lemma dead_halt k k' rt : dead k rt -> dead k (haltTask k' rt).
Proof.
  unfold dead, haltTask, live. intros [Hl Hk].
  destruct (existsb (fun x => Nat.eqb (task_id x) k') (tasks rt)); simpl; [|auto].
  split; [apply live_filter, Hl | exact Hk].
Qed.

(** Halting a task takes it out of the pool for good. *)
Lemma haltTask_kills k rt : spawned k rt -> dead k (haltTask k rt).
Proof.
  unfold dead, haltTask, spawned. intros Hk.
  destruct (live k rt) eqn:Hl; simpl; [|auto].
  split; [apply live_filter_self | exact Hk].
Qed.

Lemma advanceThread_kills (e : Event) (t : Thread) (rt : Runtime) (k : nat) :
  affected e t = true ->
  exec (sync t) = ExRunning k ->
  spawned k rt ->
  handsOn (dead k) (advanceThread e t rt) /\ advanceThread e t rt <> Untouched.
Proof.
  intros Ha Hx Hk. unfold advanceThread. fold (affected e t). rewrite Ha, Hx.
  pose proof (haltTask_kills k rt Hk) as Hd.
  destruct (next (proc (set_exec t ExNone)) e) as [value p| |e']; simpl;
    try (split; [exact Hd | discriminate]).
  pose proof (start_hands_on (dead k) (dead_spawn k)
                (advanced (set_exec t ExNone) value p) (haltTask k rt) Hd) as Hs.
  destruct (startThreadOperationIfNecessary
              (advanced (set_exec t ExNone) value p) (haltTask k rt)).
  split; [exact Hs | discriminate].
Qed.

Lemma advance_kills (e : Event) (ts : list Thread) (rt : Runtime) (t : Thread) (k : nat) :
  t_error (forEach (advanceThread e) ts rt) = None ->
  In t ts ->
  affected e t = true ->
  exec (sync t) = ExRunning k ->
  spawned k rt ->
  dead k (t_rt (forEach (advanceThread e) ts rt)).
Proof.
  revert rt. induction ts as [|a ts IH]; intros rt Hok Hin Ha Hx Hk; [destruct Hin|].
  destruct Hin as [->|Hin].
  - destruct (advanceThread_kills e t rt k Ha Hx Hk) as [Hd Hn].
    simpl in *. destruct (advanceThread e t rt) as [|t' rt'|rt'|e' t' rt']; simpl in *;
      try congruence;
      apply (forEach_hands_on (dead k));
      try (intros; apply advanceThread_hands_on;
           auto using dead_send, dead_spawn, dead_halt); exact Hd.
  - pose proof (advanceThread_hands_on (spawned k) (spawned_spawn k) (spawned_halt k)
                  e a rt Hk) as Hh.
    simpl in *. destruct (advanceThread e a rt) as [|t' rt'|rt'|e' t' rt']; simpl in *;
      try discriminate; apply IH; auto.
Qed.














(* ------------------------------------------------------------------ *)
(** ** Phase C *)

Lemma schedule_selected_shape (ts : list Thread) (rt : Runtime) (e : Event) :
  t_selected (schedule ts rt) = Some e ->
  schedule ts rt
  = mkTurn (t_threads (forEach (advanceThread e) (t_threads (harvest ts rt))
                               (t_rt (harvest ts rt))))
           (t_rt (forEach (advanceThread e) (t_threads (harvest ts rt))
                          (t_rt (harvest ts rt))))
           true (Some e)
           (t_error (forEach (advanceThread e) (t_threads (harvest ts rt))
                             (t_rt (harvest ts rt)))).
Proof.
  intros H. destruct (schedule_selected_truthy ts rt e H) as (Hok & He & Ht).
  unfold schedule. rewrite Hok, <- He, Ht. reflexivity.
Qed.






Lemma start_shape (t : Thread) (rt : Runtime) :
  exists x,
    fst (startThreadOperationIfNecessary t rt)
    = mkThread (tid t) (name t)
               (mkSync (post (sync t)) (wait (sync t)) (halt (sync t)) x)
               (proc t) (prio t).
Proof.
  destruct t as [i n [po wa ha x] pr z]. unfold startThreadOperationIfNecessary. simpl.
  destruct x; simpl; eexists; reflexivity.
Qed.

Lemma advanceThread_outcome (e : Event) (t : Thread) (rt : Runtime) :
  match advanceThread e t rt with
  | Untouched => PhaseC e t [t]
  | Kept t' _ => PhaseC e t [t']
  | Deleted _ => PhaseC e t []
  | Escaped _ _ _ => True
  end.
Proof.
  unfold advanceThread, PhaseC. fold (affected e t).
  destruct (affected e t); [|reflexivity].
  assert (Hp : proc (fst (match exec (sync t) with
                          | ExRunning k => (set_exec t ExNone, haltTask k rt)
                          | _ => (t, rt)
                          end)) = proc t /\
               tid (fst (match exec (sync t) with
                         | ExRunning k => (set_exec t ExNone, haltTask k rt)
                         | _ => (t, rt)
                         end)) = tid t /\
               name (fst (match exec (sync t) with
                          | ExRunning k => (set_exec t ExNone, haltTask k rt)
                          | _ => (t, rt)
                          end)) = name t /\
               prio (fst (match exec (sync t) with
                          | ExRunning k => (set_exec t ExNone, haltTask k rt)
                          | _ => (t, rt)
                          end)) = prio t).
  { destruct (exec (sync t)); simpl; auto. }
  destruct (match exec (sync t) with
            | ExRunning k => (set_exec t ExNone, haltTask k rt)
            | _ => (t, rt)
            end) as [t1 rt1]. simpl in Hp. destruct Hp as (Hp & Hi & Hn & Hz).
  rewrite Hp. destruct (next (proc t) e) as [value p| |e'] eqn:Hnx; [| |exact I].
  - destruct (start_shape (advanced t1 value p) rt1) as [x Hs].
    destruct (startThreadOperationIfNecessary (advanced t1 value p) rt1) as [t2 rt2].
    simpl in Hs. subst t2. rewrite Hi, Hn, Hz.
    apply ResumedYield. exact Hnx.
  - apply ResumedDone. exact Hnx.
Qed.

Lemma forEach_advance_outcome (e : Event) (ts : list Thread) (rt : Runtime) :
  t_error (forEach (advanceThread e) ts rt) = None ->
  exists outs,
    Forall2 (PhaseC e) ts outs /\
    t_threads (forEach (advanceThread e) ts rt) = List.concat outs.
Proof.
  revert rt. induction ts as [|a ts IH]; intros rt Hok.
  - exists []. split; [constructor | reflexivity].
  - pose proof (advanceThread_outcome e a rt) as Ho. simpl in *.
    destruct (advanceThread e a rt) as [|a' rt'|rt'|e' a' rt']; simpl in *;
      try discriminate; destruct (IH _ Hok) as (outs & Hf & Hc).
    + exists ([a] :: outs). split; [constructor; assumption | simpl; congruence].
    + exists ([a'] :: outs). split; [constructor; assumption | simpl; congruence].
    + exists ([] :: outs). split; [constructor; assumption | simpl; congruence].
Qed.

(** Phase A does not touch a thread whose exec is not done. *)
Lemma harvest_keeps_thread (ts : list Thread) (rt : Runtime) (y : Thread) :
  t_error (harvest ts rt) = None ->
  In y ts ->
  (forall r, exec (sync y) <> ExDone r) ->
  In y (t_threads (harvest ts rt)).
Proof.
  intros Hok Hin Hx.
  destruct (forEach_visited harvestThread ts rt y Hok Hin) as [rt0 H].
  unfold harvestThread in H.
  destruct (exec (sync y)) as [| |k|r] eqn:He; try exact H.
  exfalso. apply (Hx r). reflexivity.
Qed.

(** C7, as the code has it.  In a turn that selects [e] and that no body
    leaves by an exception, the threads that are active after Phase A are
    visited once each, in order: a thread that requests [e] or waits for it
    (with the sync it has after Phase A) is resumed with [e] exactly once,
    and is removed if its body finishes, else takes the sync its body
    yields; a thread that does neither is left as it is.  A running task of
    a resumed thread is halted first.  A thread whose exec was not done
    when the turn started enters Phase C as it was then. *)
Theorem affected_threads_advance_once (ts : list Thread) (rt : Runtime) (e : Event) :
  t_selected (schedule ts rt) = Some e ->
  t_error (schedule ts rt) = None ->
  (exists outs,
      Forall2 (PhaseC e) (t_threads (harvest ts rt)) outs /\
      t_threads (schedule ts rt) = List.concat outs) /\
  (forall t k,
      In t (t_threads (harvest ts rt)) ->
      affected e t = true ->
      exec (sync t) = ExRunning k ->
      spawned k rt ->
      live k (t_rt (schedule ts rt)) = false) /\
  (forall y, In y ts -> (forall r, exec (sync y) <> ExDone r) ->
             In y (t_threads (harvest ts rt))).
Proof.
  intros Hsel Hok.
  destruct (schedule_selected_truthy ts rt e Hsel) as (Ha & _ & _).
  rewrite (schedule_selected_shape ts rt e Hsel) in *. simpl in *.
  split; [apply forEach_advance_outcome, Hok|]. split.
  - intros t k Hin Haff Hx Hk.
    apply (advance_kills e _ _ t k Hok Hin Haff Hx).
    apply (forEach_hands_on (spawned k)); [|exact Hk].
    intros; apply harvestThread_hands_on; auto using spawned_spawn.
  - intros y Hin Hx. apply harvest_keeps_thread; assumption.
Qed.

Lemma affected_threads_advance_once_witness :
  exists outs,
    Forall2 (PhaseC (EStr "timeout"))
            (t_threads (harvest (activeThreads (Scenarios.started Scenarios.interrupted))
                                (runtime (Scenarios.started Scenarios.interrupted))))
            outs /\
    t_threads (turn (Scenarios.started Scenarios.interrupted)) = List.concat outs.
Proof.
  destruct (affected_threads_advance_once
              (activeThreads (Scenarios.started Scenarios.interrupted))
              (runtime (Scenarios.started Scenarios.interrupted))
              (EStr "timeout")) as [H _].
  - vm_compute. reflexivity.
  - vm_compute. reflexivity.
  - exact H.
Defined.

(** C7 fails as stated for "active at the start of the turn": [q] is
    active and requests [x] when the turn starts; Phase A replaces its
    request by the value [y] of its operation, the turn selects [x], and
    [q] is not resumed (its body has not moved). *)
Lemma requester_at_turn_start_not_advanced :
  exists s p q,
    Scenarios.firstTurn Scenarios.twoPosters = Some s /\
    activeThreads s = [p; q] /\
    includes (post (sync q)) (EStr "x") = true /\
    t_selected (turn s) = Some (EStr "x") /\
    t_error (turn s) = None /\
    t_threads (turn s)
    = [mkThread (tid q) (name q)
                (mkSync [EStr "y"] (wait (sync q)) (halt (sync q)) ExNone)
                (proc q) (prio q)].
Proof. eexists. eexists. eexists. repeat split. Qed.

(* ------------------------------------------------------------------ *)
(** ** Admission and the outer loop *)

Lemma has_set_add (t : Thread) (ts : list Thread) : has (set_add t ts) t = true.
Proof.
  unfold set_add. destruct (has ts t) eqn:H; [exact H|].
  unfold has. rewrite existsb_app. simpl. rewrite Nat.eqb_refl.
  rewrite Bool.orb_true_r. reflexivity.
Qed.

Lemma has_set_add_mono (t x : Thread) (ts : list Thread) :
  has ts x = true -> has (set_add t ts) x = true.
Proof.
  unfold set_add. destruct (has ts t); [auto|].
  unfold has. rewrite existsb_app. intros ->. reflexivity.
Qed.

Lemma has_fold_mono (l acc : list Thread) (x : Thread) :
  has acc x = true -> has (fold_left (fun a t => set_add t a) l acc) x = true.
Proof.
  revert acc. induction l as [|a l IH]; intros acc H; simpl; [exact H|].
  apply IH, has_set_add_mono, H.
Qed.

Lemma has_fold_in (l acc : list Thread) (x : Thread) :
  In x l -> has (fold_left (fun a t => set_add t a) l acc) x = true.
Proof.
  revert acc. induction l as [|a l IH]; intros acc Hin; [destruct Hin|].
  simpl. destruct Hin as [->|Hin]; [apply has_fold_mono, has_set_add | apply IH, Hin].
Qed.

Lemma has_in (ts : list Thread) (t : Thread) : has ts t = true -> exists x, In x ts.
Proof. destruct ts as [|a ts]; [discriminate | intros _; exists a; left; reflexivity]. Qed.

(** The merge at the head of the outer loop. *)
Lemma incorporate_merges (s : System) (t : Thread) :
  In t (pendingThreads s) ->
  has (activeThreads (incorporate s)) t = true /\ pendingThreads (incorporate s) = [].
Proof.
  intros Hin. unfold incorporate.
  destruct (pendingThreads s) as [|a l] eqn:Hp; [destruct Hin|]. simpl.
  split; [|reflexivity]. unfold set_union. apply has_fold_in. exact Hin.
Qed.

Lemma has_same_tid (ts : list Thread) (x y : Thread) :
  tid x = tid y -> has ts x = has ts y.
Proof. intros H. unfold has. rewrite H. reflexivity. Qed.

Lemma has_fold_has (l acc : list Thread) (x : Thread) :
  has l x = true -> has (fold_left (fun a t => set_add t a) l acc) x = true.
Proof.
  revert acc. induction l as [|a l IH]; intros acc H; [discriminate|].
  simpl in *. apply Bool.orb_true_iff in H. destruct H as [H|H].
  - apply has_fold_mono. apply Nat.eqb_eq in H.
    rewrite <- (has_same_tid _ a x H). apply has_set_add.
  - apply IH, H.
Qed.

Lemma incorporate_has (s : System) (t : Thread) :
  has (pendingThreads s) t = true ->
  has (activeThreads (subscribe (incorporate s))) t = true.
Proof.
  intros H. unfold incorporate.
  destruct (pendingThreads s) as [|a l] eqn:Hp; [discriminate|].
  simpl. unfold set_union. apply has_fold_has. exact H.
Qed.

Lemma has_markDone (id : nat) (r : Result) (ts : list Thread) (t : Thread) :
  has (markDone id r ts) t = has ts t.
Proof.
  unfold has, markDone. induction ts as [|a ts IH]; simpl; [reflexivity|].
  rewrite IH. destruct (Nat.eqb (tid a) id); reflexivity.
Qed.

Lemma settle_keeps_pending (s : System) (t : Thread) :
  has (pendingThreads (settle s)) t = has (pendingThreads s) t.
Proof.
  unfold settle. generalize (tasks (runtime s)) as pool. intros pool. revert s.
  induction pool as [|a pool IH]; intros s; simpl; [reflexivity|].
  rewrite IH. destruct (due (clock (runtime s)) a); [apply has_markDone | reflexivity].
Qed.

Lemma factory_keeps_pending (nm : string) (b : Generator) (s s' : System) (t : Thread) :
  addBehavioralThread nm b s = Value s' ->
  has (pendingThreads s) t = true -> has (pendingThreads s') t = true.
Proof.
  unfold addBehavioralThread.
  destruct (makeThread (fresh_tid s) nm None b) as [t0|e]; [|discriminate].
  destruct (startThreadOperationIfNecessary t0 (runtime s)) as [t1 rt1].
  intros H. injection H as <-. simpl. apply has_set_add_mono.
Qed.

(** Whatever the body does next, a pending thread is still pending when
    the body returns. *)
Lemma runBody_keeps_pending (V : Type) (b : Body V) (s s' : System) (v : V) (t : Thread) :
  runBody b s = Value (v, s') ->
  has (pendingThreads s) t = true -> has (pendingThreads s') t = true.
Proof.
  revert s. induction b as [v0|nm g k IH|n k IH|e]; intros s; simpl.
  - intros H. injection H as _ <-. auto.
  - destruct (addBehavioralThread nm g s) as [s1|e1] eqn:Ha; [|discriminate].
    intros H Hp. apply (IH _ H). eapply factory_keeps_pending; eauto.
  - intros H Hp. apply (IH _ H). unfold sleep. rewrite settle_keeps_pending. exact Hp.
  - discriminate.
Qed.

(** C9: the thread factory leaves the active set alone and puts the new
    thread into the pending set; a turn works on the active set and the
    runtime only, so it selects, blocks and advances as if the thread had
    not been admitted, and leaves the pending set alone; the thread stays
    pending whatever the body does next, and the pass of the outer loop
    that follows starts by moving it into the active set, on which its
    turns then run. *)
Theorem new_thread_joins_at_next_pass (nm : string) (behavior : Generator)
        (s s' : System) :
  addBehavioralThread nm behavior s = Value s' ->
  activeThreads s' = activeThreads s /\
  (exists t,
      tid t = fresh_tid s /\
      pendingThreads s' = set_add t (pendingThreads s) /\
      has (pendingThreads s') t = true /\
      (has (pendingThreads s) t = false ->
       pendingThreads s' = pendingThreads s ++ [t]) /\
      (forall (V : Type) (rest : Body V) (v : V) (s2 : System),
          runBody rest s' = Value (v, s2) ->
          has (activeThreads (subscribe (incorporate s2))) t = true /\
          pendingThreads (subscribe (incorporate s2)) = [])) /\
  turn s' = schedule (activeThreads s) (runtime s') /\
  (forall p, turn (mkSystem (activeThreads s') p (fresh_tid s') (runtime s')) = turn s') /\
  pendingThreads (after s' (turn s')) = pendingThreads s' /\
  (forall fuel,
      scheduler (S fuel) s'
      = match iterate fuel (subscribe (incorporate s')) with
        | Broke s1 =>
            match pendingThreads s1 with
            | [] => Broke s1
            | _ => match awaitNotification s1 with
                   | Some s2 => scheduler fuel s2
                   | None => Stuck s1
                   end
            end
        | other => other
        end).
Proof.
  intros Hadd. pose proof Hadd as Hadd'. revert Hadd. unfold addBehavioralThread.
  destruct (makeThread (fresh_tid s) nm None behavior) as [t0|e] eqn:Hm; [|discriminate].
  assert (Hid : tid t0 = fresh_tid s).
  { unfold makeThread in Hm. destruct (next behavior EUndefined); try discriminate;
      injection Hm as <-; reflexivity. }
  destruct (start_shape t0 (runtime s)) as [x Hs].
  destruct (startThreadOperationIfNecessary t0 (runtime s)) as [t1 rt1].
  simpl in Hs. intros H. injection H as <-.
  split; [reflexivity|]. split.
  - exists t1.
    split; [subst t1; exact Hid|]. split; [reflexivity|].
    split; [apply has_set_add|]. split.
    + intros Hh. simpl. unfold set_add. rewrite Hh. reflexivity.
    + intros V rest v s2 Hr.
      assert (Hp : has (pendingThreads s2) t1 = true).
      { apply (runBody_keeps_pending V rest _ s2 v t1 Hr). simpl. apply has_set_add. }
      split; [apply incorporate_has, Hp|].
      destruct (has_in _ _ Hp) as [y Hy]. apply (incorporate_merges s2 y Hy).
  - repeat split.
Qed.

Lemma new_thread_joins_at_next_pass_witness :
  exists s s',
    addBehavioralThread "producer" (Samples.script [Samples.posting [EStr "event1"]]) initial
    = Value s /\
    addBehavioralThread "consumer"
      (Samples.script [Samples.waiting (Samples.named "event1")]) s = Value s' /\
    activeThreads s' = [] /\
    List.length (pendingThreads s') = 2 /\
    t_selected (turn s') = None /\
    t_selected (turn (subscribe (incorporate s'))) = Some (EStr "event1").
Proof.
  eexists. eexists. split; [reflexivity|].
  match goal with
  | |- addBehavioralThread ?nm ?b ?s = Value ?s' /\ _ =>
      assert (H : addBehavioralThread nm b s = Value s') by reflexivity;
        split; [exact H|];
        destruct (new_thread_joins_at_next_pass nm b s s' H) as (Ha & _)
  end.
  split; [exact Ha|]. repeat split.
Defined.

(* ------------------------------------------------------------------ *)
(** ** Further properties of a turn *)

Lemma sameValueZero_refl (e : Event) : sameValueZero e e = true.
Proof.
  destruct e; simpl; auto using Bool.eqb_reflx, Z.eqb_refl, String.eqb_refl, Nat.eqb_refl.
Qed.

Lemma includes_In (l : list Event) (e : Event) : In e l -> includes l e = true.
Proof.
  intros H. unfold includes. apply existsb_exists. exists e.
  split; [exact H | apply sameValueZero_refl].
Qed.

Lemma candidate_requested (ts : list Thread) (e : Event) :
  In e (candidates ts) -> exists t, In t ts /\ In e (post (sync t)).
Proof.
  unfold candidates. intros H. apply in_flat_map in H. destruct H as (t & Ht & He).
  exists t. split; [|exact He].
  apply (Permutation_in t (sort_prio_perm ts) Ht).
Qed.

(** The event that a turn selects is requested by a thread that is active
    after Phase A; that thread passes the test of Phase C, and the turn
    reports that it did work. *)
Theorem selected_event_was_requested (ts : list Thread) (rt : Runtime) (e : Event) :
  t_selected (schedule ts rt) = Some e ->
  (exists t, In t (t_threads (harvest ts rt)) /\
             In e (post (sync t)) /\ affected e t = true) /\
  t_didWork (schedule ts rt) = true.
Proof.
  intros H. split.
  - destruct (schedule_selected_truthy ts rt e H) as (_ & He & Ht).
    unfold selectedEvent in He.
    destruct (findEvent (t_threads (harvest ts rt))) as [x|] eqn:Hf;
      [|subst e; discriminate].
    subst x. apply find_some in Hf. destruct Hf as [Hin _].
    destruct (candidate_requested _ _ Hin) as (t & Ht' & Hp).
    exists t. split; [exact Ht'|]. split; [exact Hp|].
    unfold affected. rewrite (includes_In _ _ Hp). reflexivity.
  - rewrite (schedule_selected_shape ts rt e H). reflexivity.
Qed.

Lemma selected_event_was_requested_witness :
  exists t,
    In t (t_threads (harvest (activeThreads (Scenarios.started Scenarios.interrupted))
                             (runtime (Scenarios.started Scenarios.interrupted)))) /\
    In (EStr "timeout") (post (sync t)) /\ affected (EStr "timeout") t = true.
Proof.
  destruct (selected_event_was_requested
              (activeThreads (Scenarios.started Scenarios.interrupted))
              (runtime (Scenarios.started Scenarios.interrupted))
              (EStr "timeout")) as [H _].
  - vm_compute. reflexivity.
  - exact H.
Defined.

Lemma Subseq_refl {A : Type} (l : list A) : Subseq l l.
Proof. induction l; constructor; assumption. Qed.

Lemma Subseq_trans {A : Type} (l1 l2 l3 : list A) :
  Subseq l1 l2 -> Subseq l2 l3 -> Subseq l1 l3.
Proof.
  intros H12 H23. revert l1 H12.
  induction H23 as [|x l2 l3 H IH|x l2 l3 H IH]; intros l1 H12.
  - exact H12.
  - constructor. apply IH, H12.
  - inversion H12; subst; constructor; apply IH; assumption.
Qed.

Lemma Subseq_map {A B : Type} (f : A -> B) (l1 l2 : list A) :
  Subseq l1 l2 -> Subseq (map f l1) (map f l2).
Proof. induction 1; simpl; constructor; assumption. Qed.

Lemma Subseq_In {A : Type} (l1 l2 : list A) (x : A) : Subseq l1 l2 -> In x l1 -> In x l2.
Proof.
  induction 1 as [|y l1 l2 H IH|y l1 l2 H IH]; simpl; auto.
  intros [->|Hin]; auto.
Qed.

Lemma Subseq_NoDup {A : Type} (l1 l2 : list A) : Subseq l1 l2 -> NoDup l2 -> NoDup l1.
Proof.
  induction 1 as [|y l1 l2 H IH|y l1 l2 H IH]; intros Hn.
  - exact Hn.
  - inversion Hn; subst. auto.
  - inversion Hn as [|? ? Hy Hn']; subst. constructor; [|auto].
    intros Hin. apply Hy. eapply Subseq_In; eauto.
Qed.

Lemma Subseq_length {A : Type} (l1 l2 : list A) :
  Subseq l1 l2 -> List.length l1 <= List.length l2.
Proof. induction 1; simpl; lia. Qed.

Lemma forEach_subseq (visit : Thread -> Runtime -> Visit) :
  (forall t rt, match visit t rt with
                | Kept t' _ => ident t' = ident t
                | Escaped _ t' _ => ident t' = ident t
                | _ => True
                end) ->
  forall ts rt, Subseq (map ident (t_threads (forEach visit ts rt))) (map ident ts).
Proof.
  intros Hv ts. induction ts as [|a ts IH]; intros rt; simpl; [constructor|].
  specialize (Hv a rt).
  destruct (visit a rt) as [|a' rt'|rt'|e a' rt']; simpl.
  - apply subseq_keep, IH.
  - rewrite Hv. apply subseq_keep, IH.
  - apply subseq_drop, IH.
  - rewrite Hv. apply Subseq_refl.
Qed.

Lemma start_ident (t : Thread) (rt : Runtime) :
  ident (fst (startThreadOperationIfNecessary t rt)) = ident t.
Proof. destruct (start_shape t rt) as [x H]. rewrite H. reflexivity. Qed.

Lemma harvestThread_ident (t : Thread) (rt : Runtime) :
  match harvestThread t rt with
  | Kept t' _ => ident t' = ident t
  | Escaped _ t' _ => ident t' = ident t
  | _ => True
  end.
Proof.
  unfold harvestThread. destruct (exec (sync t)) as [| | |[v|e]]; auto.
  destruct (throw (proc t) e) as [value p| |e']; auto.
  pose proof (start_ident (advanced t value p) rt) as H.
  destruct (startThreadOperationIfNecessary (advanced t value p) rt). exact H.
Qed.

Lemma advanceThread_ident (e : Event) (t : Thread) (rt : Runtime) :
  match advanceThread e t rt with
  | Kept t' _ => ident t' = ident t
  | Escaped _ t' _ => ident t' = ident t
  | _ => True
  end.
Proof.
  unfold advanceThread.
  destruct (includes (post (sync t)) e || wait (sync t) e); [|exact I].
  assert (Hc : ident (fst (match exec (sync t) with
                           | ExRunning k => (set_exec t ExNone, haltTask k rt)
                           | _ => (t, rt)
                           end)) = ident t).
  { destruct (exec (sync t)); reflexivity. }
  destruct (match exec (sync t) with
            | ExRunning k => (set_exec t ExNone, haltTask k rt)
            | _ => (t, rt)
            end) as [t1 rt1]. simpl in Hc.
  destruct (next (proc t1) e) as [value p| |e']; auto.
  pose proof (start_ident (advanced t1 value p) rt1) as H.
  destruct (startThreadOperationIfNecessary (advanced t1 value p) rt1).
  simpl in H. rewrite H. exact Hc.
Qed.

(** [schedule] only ever removes threads from the set it is given: the
    threads it leaves are threads it was given, in the same order, with
    their name and priority; whether the turn ends normally or by an
    exception.  So a set without duplicates stays one, and never grows. *)
Theorem schedule_only_removes (ts : list Thread) (rt : Runtime) :
  Subseq (map ident (t_threads (schedule ts rt))) (map ident ts) /\
  List.length (t_threads (schedule ts rt)) <= List.length ts /\
  (NoDup (map tid ts) -> NoDup (map tid (t_threads (schedule ts rt)))).
Proof.
  assert (H : Subseq (map ident (t_threads (schedule ts rt))) (map ident ts)).
  { pose proof (forEach_subseq harvestThread harvestThread_ident ts rt) as Ha.
    unfold schedule. fold (harvest ts rt) in Ha.
    destruct (t_error (harvest ts rt)); [exact Ha|].
    destruct (truthy (selectedEvent (t_threads (harvest ts rt)))); [|exact Ha].
    simpl. eapply Subseq_trans; [|exact Ha].
    apply forEach_subseq. intros; apply advanceThread_ident. }
  split; [exact H|]. split.
  - apply Subseq_length in H. rewrite !length_map in H. exact H.
  - intros Hn. apply (Subseq_map (fun i => fst (fst i))) in H.
    rewrite !map_map in H. simpl in H. eapply Subseq_NoDup; eauto.
Qed.

Lemma forEach_idle (visit : Thread -> Runtime -> Visit) (ts : list Thread) (rt : Runtime) :
  (forall t, In t ts -> visit t rt = Untouched) ->
  forEach visit ts rt = mkTurn ts rt false None None.
Proof.
  induction ts as [|a ts IH]; intros H; simpl; [reflexivity|].
  rewrite (H a (or_introl eq_refl)), IH; [reflexivity|].
  intros t Hin. apply H. right. exact Hin.
Qed.

Lemma harvestThread_untouched (t : Thread) (rt : Runtime) :
  (forall r, exec (sync t) <> ExDone r) -> harvestThread t rt = Untouched.
Proof.
  intros H. unfold harvestThread. destruct (exec (sync t)) as [| | |r]; auto.
  exfalso. apply (H r). reflexivity.
Qed.

(** A turn answers "no work" without an exception exactly when no active
    thread has an exec that is done and no truthy event can be selected;
    and such a turn is the identity on the thread set and the runtime. *)
Theorem no_work_iff_idle (ts : list Thread) (rt : Runtime) :
  (t_didWork (schedule ts rt) = false /\ t_error (schedule ts rt) = None <-> Idle ts) /\
  (Idle ts -> schedule ts rt = mkTurn ts rt false None None).
Proof.
  assert (Hid : Idle ts -> schedule ts rt = mkTurn ts rt false None None).
  { intros [Hd Hq]. unfold schedule, harvest.
    rewrite (forEach_idle harvestThread ts rt); simpl.
    - rewrite Hq. reflexivity.
    - intros t Hin. apply harvestThread_untouched. apply Hd, Hin. }
  split; [|exact Hid]. split.
  - intros [Hw He]. apply (idle_turn ts rt Hw He).
  - intros Hi. rewrite (Hid Hi). split; reflexivity.
Qed.

Lemma forEach_stays (visit : Thread -> Runtime -> Visit) (t : Thread) :
  (forall rt0, visit t rt0 = Untouched) ->
  forall ts rt, In t ts -> In t (t_threads (forEach visit ts rt)).
Proof.
  intros Hv ts. induction ts as [|a ts IH]; intros rt Hin; [destruct Hin|].
  simpl. destruct Hin as [->|Hin].
  - rewrite Hv. left. reflexivity.
  - destruct (visit a rt) as [|a' rt'|rt'|e a' rt']; simpl; auto.
Qed.

Lemma silent_not_affected (t : Thread) (e : Event) : silent t -> affected e t = false.
Proof.
  intros (Hp & Hw & _). unfold affected. rewrite Hp, Hw. reflexivity.
Qed.

Lemma silent_schedule (t : Thread) (ts : list Thread) (rt : Runtime) :
  silent t -> In t ts -> In t (t_threads (schedule ts rt)).
Proof.
  intros Hs Hin.
  assert (Ha : In t (t_threads (harvest ts rt))).
  { apply forEach_stays; [|exact Hin].
    intros rt0. apply harvestThread_untouched. apply Hs. }
  unfold schedule. destruct (t_error (harvest ts rt)); [exact Ha|].
  destruct (truthy (selectedEvent (t_threads (harvest ts rt)))); [|exact Ha].
  simpl. apply forEach_stays; [|exact Ha].
  intros rt0. unfold advanceThread. fold (affected (selectedEvent (t_threads (harvest ts rt))) t).
  rewrite (silent_not_affected t _ Hs). reflexivity.
Qed.

(** A thread that requests nothing, waits for nothing and has no result to
    hand in is never advanced and never removed: it is in the active set
    after every turn, and still there when the inner loop ends, normally or
    by an exception.  The sentinel of [makeThread] is such a thread. *)
Theorem silent_thread_stays (t : Thread) :
  silent t ->
  (forall ts rt, In t ts -> In t (t_threads (schedule ts rt))) /\
  (forall fuel s s',
      In t (activeThreads s) ->
      iterate fuel s = Broke s' \/ (exists e, iterate fuel s = Raised e s') ->
      In t (activeThreads s')) /\
  (forall id nm, silent (createEmptyThread id nm)).
Proof.
  intros Hs. split; [intros; apply silent_schedule; assumption|]. split.
  - intros fuel. induction fuel as [|f IH]; intros s s' Hin H; simpl in H.
    + destruct H as [H|[e H]]; discriminate.
    + assert (Hin' : In t (activeThreads (after s (turn s)))).
      { simpl. apply silent_schedule; assumption. }
      destruct (t_error (turn s)) as [e0|].
      * destruct H as [H|[e H]]; [discriminate|]. injection H as _ <-. exact Hin'.
      * destruct (t_didWork (turn s)).
        -- apply (IH _ _ Hin' H).
        -- destruct H as [H|[e H]]; [|discriminate]. injection H as <-. exact Hin'.
  - intros id nm. repeat split. intros r. discriminate.
Qed.

Lemma silent_thread_stays_witness :
  In (createEmptyThread 0 "e")
     (t_threads (schedule [createEmptyThread 0 "e"] Scenarios.idle)).
Proof.
  destruct (silent_thread_stays (createEmptyThread 0 "e")) as (H & _).
  - repeat split. intros r. discriminate.
  - apply H. left. reflexivity.
Defined.















(* ------------------------------------------------------------------ *)
(** ** Who is served first *)

Lemma insert_prio_head (t : Thread) (l : list Thread) :
  (forall x, In x l -> (prio x <= prio t)%Z) -> insert_prio t l = t :: l.
Proof.
  destruct l as [|x r]; intros H; simpl; [reflexivity|].
  assert (Hx : (prio x <= prio t)%Z) by (apply H; left; reflexivity).
  apply Z.ltb_ge in Hx. rewrite Hx. reflexivity.
Qed.

Lemma sort_prio_head (l1 l2 : list Thread) (t : Thread) :
  (forall x, In x l1 -> (prio x < prio t)%Z) ->
  (forall x, In x l2 -> (prio x <= prio t)%Z) ->
  sort_prio (l1 ++ t :: l2) = t :: sort_prio (l1 ++ l2).
Proof.
  intros H1 H2. induction l1 as [|a l1 IH]; simpl.
  - apply insert_prio_head. intros x Hx. apply H2.
    apply (Permutation_in x (sort_prio_perm l2) Hx).
  - rewrite IH by (intros x Hx; apply H1; right; exact Hx). simpl.
    assert (Ha : (prio a < prio t)%Z) by (apply H1; left; reflexivity).
    apply Z.ltb_lt in Ha. rewrite Ha. reflexivity.
Qed.

Lemma harvest_idle (ts : list Thread) (rt : Runtime) :
  (forall x, In x ts -> forall r, exec (sync x) <> ExDone r) ->
  harvest ts rt = mkTurn ts rt false None None.
Proof.
  intros H. unfold harvest. apply forEach_idle.
  intros t Hin. apply harvestThread_untouched. apply H, Hin.
Qed.

(** When no exec is done, the turn selects the first request of the thread
    that comes first in the order of service, if that request is truthy
    and nobody halts it.  The thread that comes first is one of the highest
    priority, and among those the one that was inserted first. *)
Theorem first_request_of_first_thread_wins (l1 l2 : list Thread) (t : Thread)
        (rt : Runtime) (a : Event) (more : list Event) :
  (forall x, In x (l1 ++ t :: l2) -> forall r, exec (sync x) <> ExDone r) ->
  (forall x, In x l1 -> (prio x < prio t)%Z) ->
  (forall x, In x l2 -> (prio x <= prio t)%Z) ->
  post (sync t) = a :: more ->
  truthy a = true ->
  halted (l1 ++ t :: l2) a = false ->
  t_selected (schedule (l1 ++ t :: l2) rt) = Some a.
Proof.
  intros Hd H1 H2 Hp Ht Hh.
  unfold schedule. rewrite (harvest_idle _ rt Hd). simpl.
  assert (Hs : selectedEvent (l1 ++ t :: l2) = a).
  { unfold selectedEvent, findEvent, candidates.
    rewrite (sort_prio_head l1 l2 t H1 H2). simpl. rewrite Hp. simpl.
    rewrite Hh. reflexivity. }
  rewrite Hs, Ht. reflexivity.
Qed.

Lemma first_request_of_first_thread_wins_witness :
  t_selected
    (schedule [mkThread 0 "low" (Samples.posting [EStr "lo"]) (Samples.script []) 1;
               mkThread 1 "high" (Samples.posting [EStr "hi"; EStr "later"])
                        (Samples.script []) 2;
               mkThread 2 "also" (Samples.posting [EStr "too"]) (Samples.script []) 2]
              Scenarios.idle)
  = Some (EStr "hi").
Proof.
  apply (first_request_of_first_thread_wins
           [mkThread 0 "low" (Samples.posting [EStr "lo"]) (Samples.script []) 1]
           [mkThread 2 "also" (Samples.posting [EStr "too"]) (Samples.script []) 2]
           (mkThread 1 "high" (Samples.posting [EStr "hi"; EStr "later"])
                     (Samples.script []) 2)
           Scenarios.idle (EStr "hi") [EStr "later"]).
  - intros x [<-|[<-|[<-|[]]]] r; discriminate.
  - intros x [<-|[]]. simpl. lia.
  - intros x [<-|[]]. simpl. lia.
  - reflexivity.
  - reflexivity.
  - reflexivity.
Defined.

Lemma candidates_perm (ts : list Thread) :
  Permutation (candidates ts) (flat_map (fun x => post (sync x)) ts).
Proof. unfold candidates. apply Permutation_flat_map, sort_prio_perm. Qed.

Lemma flat_map_nil {A B : Type} (f : A -> list B) (l : list A) :
  (forall x, In x l -> f x = []) -> flat_map f l = [].
Proof.
  induction l as [|a l IH]; intros H; simpl; [reflexivity|].
  rewrite (H a (or_introl eq_refl)), IH; [reflexivity|].
  intros x Hx. apply H. right. exact Hx.
Qed.

(** The value of an operation that settled reaches the bodies: when one
    thread has an exec done(ok v) with [v] truthy, the other threads
    request nothing and have no exec done, and nobody halts [v], the same
    turn harvests [v], selects it, and the thread itself passes the test of
    Phase C with the post list [v] it got. *)
Theorem settled_value_is_selected (l1 l2 : list Thread) (t : Thread) (rt : Runtime)
        (v : Event) :
  (forall x, In x (l1 ++ l2) ->
             post (sync x) = [] /\ forall r, exec (sync x) <> ExDone r) ->
  exec (sync t) = ExDone (Ok v) ->
  truthy v = true ->
  halted (l1 ++ t :: l2) v = false ->
  t_threads (harvest (l1 ++ t :: l2) rt)
  = l1 ++ set_post (set_exec t ExNone) [v] :: l2 /\
  t_selected (schedule (l1 ++ t :: l2) rt) = Some v /\
  affected v (set_post (set_exec t ExNone) [v]) = true.
Proof.
  intros Ho Hx Ht Hh.
  assert (H1 : harvest l1 rt = mkTurn l1 rt false None None).
  { apply harvest_idle. intros x Hin. apply Ho, in_or_app. left. exact Hin. }
  assert (H2 : harvest l2 rt = mkTurn l2 rt false None None).
  { apply harvest_idle. intros x Hin. apply Ho, in_or_app. right. exact Hin. }
  assert (Hth : t_threads (harvest (l1 ++ t :: l2) rt)
                = l1 ++ set_post (set_exec t ExNone) [v] :: l2 /\
                t_error (harvest (l1 ++ t :: l2) rt) = None).
  { unfold harvest in *.
    destruct (forEach_app harvestThread l1 (t :: l2) rt) as (Ha & _ & He);
      [rewrite H1; reflexivity|].
    rewrite Ha, He, H1. simpl. rewrite (harvestThread_ok t rt v Hx). simpl.
    rewrite H2. simpl. auto. }
  destruct Hth as [Hth He]. split; [exact Hth|].
  assert (Hc : candidates (l1 ++ set_post (set_exec t ExNone) [v] :: l2) = [v]).
  { apply Permutation_length_1_inv. apply Permutation_sym.
    eapply perm_trans; [apply candidates_perm|].
    rewrite flat_map_app. simpl.
    rewrite (flat_map_nil _ l1), (flat_map_nil _ l2); [apply Permutation_refl| |];
      intros x Hin; apply Ho, in_or_app; auto. }
  assert (Hh' : halted (l1 ++ set_post (set_exec t ExNone) [v] :: l2) v = false).
  { revert Hh. unfold halted. rewrite !existsb_app. simpl. auto. }
  split.
  - unfold schedule. rewrite He, Hth.
    unfold selectedEvent, findEvent. rewrite Hc. simpl. rewrite Hh'. simpl.
    rewrite Ht. reflexivity.
  - unfold affected. simpl. rewrite sameValueZero_refl. reflexivity.
Qed.

Lemma settled_value_is_selected_witness :
  t_selected
    (schedule [mkThread 0 "worker" (Samples.waiting (Samples.named "timeout"))
                        (Samples.script []) 1;
               mkThread 1 "timer"
                        (mkSync [] (fun _ => false) (fun _ => false)
                                (ExDone (Ok (EStr "timeout"))))
                        (Samples.script []) 1]
              Scenarios.idle)
  = Some (EStr "timeout").
Proof.
  apply (settled_value_is_selected
           [mkThread 0 "worker" (Samples.waiting (Samples.named "timeout"))
                     (Samples.script []) 1]
           []
           (mkThread 1 "timer"
                     (mkSync [] (fun _ => false) (fun _ => false)
                             (ExDone (Ok (EStr "timeout"))))
                     (Samples.script []) 1)
           Scenarios.idle (EStr "timeout")).
  - intros x [<-|[]]. split; [reflexivity | intros r; discriminate].
  - reflexivity.
  - reflexivity.
  - reflexivity.
Defined.

(* ------------------------------------------------------------------ *)
(** ** The outer loop once the body has returned *)

Lemma iterate_keeps_pending (fuel : nat) (s : System) :
  match iterate fuel s with
  | Broke s' => pendingThreads s' = pendingThreads s
  | Raised _ s' => pendingThreads s' = pendingThreads s
  | Stuck _ => False
  | Exhausted => True
  end.
Proof.
  revert s. induction fuel as [|f IH]; intros s; simpl; [exact I|].
  destruct (t_error (turn s)); [reflexivity|].
  destruct (t_didWork (turn s)); [|reflexivity].
  specialize (IH (after s (turn s))).
  destruct (iterate f (after s (turn s))); exact IH.
Qed.

Lemma pending_after_merge (s : System) : pendingThreads (subscribe (incorporate s)) = [].
Proof.
  unfold incorporate. destruct (pendingThreads s) eqn:H; simpl; [exact H | reflexivity].
Qed.

Lemma scheduler_one_pass (fuel : nat) (s : System) :
  scheduler (S fuel) s = iterate fuel (subscribe (incorporate s)).
Proof.
  simpl. pose proof (iterate_keeps_pending fuel (subscribe (incorporate s))) as H.
  destruct (iterate fuel (subscribe (incorporate s))) as [s1|e1 s1|s1|]; try reflexivity.
  rewrite H, pending_after_merge. reflexivity.
Qed.

(** Nothing but the thread factory adds to the pending set, and only the
    body calls the factory here (an operation that calls it is outside
    this model).  So once the body has returned, the outer loop makes one
    pass: it merges the pending threads, runs turns until one does no work
    or throws, finds the pending set empty and breaks.  The wait for a
    notification is never reached, and [behavioralThreadSystem] never
    hangs on it. *)
Theorem scheduling_loop_makes_one_pass (fuel : nat) (s : System) :
  scheduler (S fuel) s = iterate fuel (subscribe (incorporate s)) /\
  (forall s', scheduler fuel s <> Stuck s') /\
  (forall (V : Type) (body : Body V), behavioralThreadSystem fuel body <> Hangs).
Proof.
  assert (Hns : forall f s0 s', scheduler f s0 <> Stuck s').
  { intros f s0 s' H. destruct f as [|f]; [discriminate|].
    rewrite scheduler_one_pass in H.
    pose proof (iterate_keeps_pending f (subscribe (incorporate s0))) as Hk.
    rewrite H in Hk. exact Hk. }
  split; [apply scheduler_one_pass|]. split; [apply Hns|].
  intros V body. unfold behavioralThreadSystem.
  destruct (runBody body initial) as [[result s0]|e]; [|discriminate].
  destruct (scheduler fuel s0) as [s1|e1 s1|s1|] eqn:Hs; simpl; try discriminate.
  exfalso. apply (Hns _ _ _ Hs).
Qed.

(** The body runs outside the [try] of the scheduling loop, and
    [makeThread] calls the first [next()] of a behavior unguarded: a
    behavior that throws before its first yield makes the thread factory
    throw the same error (nothing is added to the pending set), and
    [behavioralThreadSystem] throws an error exactly when the body threw
    it. *)
Theorem body_errors_surface (V : Type) (fuel : nat) (body : Body V) (e : JsError) :
  (behavioralThreadSystem fuel body = Throws e <-> runBody body initial = Thrown e) /\
  (forall nm g s (k : Body V),
      next g EUndefined = StepRaise e ->
      addBehavioralThread nm g s = Thrown e /\
      runBody (BThread nm g k) s = Thrown e).
Proof.
  split.
  - unfold behavioralThreadSystem.
    destruct (runBody body initial) as [[result s]|e0]; split; intros H;
      try discriminate; try congruence.
    destruct (scheduler fuel s); discriminate.
  - intros nm g s k H.
    assert (Ha : addBehavioralThread nm g s = Thrown e).
    { unfold addBehavioralThread, makeThread. rewrite H. reflexivity. }
    split; [exact Ha|]. simpl. rewrite Ha. reflexivity.
Qed.

(* ------------------------------------------------------------------ *)
(** ** The game state of tic-tac-toe *)

Module TicTacToeFacts.
Import TicTacToe.

Lemma nth_error_assign_same {A : Type} (l : list A) (i : nat) (x : A) :
  i < List.length l -> nth_error (assign l i x) i = Some x.
Proof.
  revert i. induction l as [|a l IH]; intros [|i] H; simpl in *; try lia; auto.
  apply IH. lia.
Qed.

Lemma nth_error_assign_other {A : Type} (l : list A) (i j : nat) (x : A) :
  i <> j -> nth_error (assign l i x) j = nth_error l j.
Proof.
  revert i j. induction l as [|a l IH]; intros [|i] [|j] H; simpl; auto; try congruence.
Qed.

Lemma length_assign {A : Type} (l : list A) (i : nat) (x : A) :
  List.length (assign l i x) = List.length l.
Proof. revert i. induction l as [|a l IH]; intros [|i]; simpl; auto. Qed.

Lemma item_Some {A : Type} (l : list A) (i : Z) (x : A) :
  item l i = Some x ->
  (0 <= i)%Z /\ nth_error l (Z.to_nat i) = Some x /\ Z.to_nat i < List.length l.
Proof.
  unfold item. destruct (Z.ltb i 0) eqn:Hi; [discriminate|].
  apply Z.ltb_ge in Hi. intros H. split; [exact Hi|]. split; [exact H|].
  apply nth_error_Some. congruence.
Qed.

Lemma item_assign_same {A : Type} (l : list A) (i : Z) (x y : A) :
  item l i = Some y -> item (assign l (Z.to_nat i) x) i = Some x.
Proof.
  intros H. destruct (item_Some l i y H) as (Hi & _ & Hl).
  unfold item. apply Z.ltb_ge in Hi. rewrite Hi. apply nth_error_assign_same, Hl.
Qed.

Lemma item_assign_other {A : Type} (l : list A) (i j : Z) (x : A) :
  (0 <= i)%Z -> i <> j -> item (assign l (Z.to_nat i) x) j = item l j.
Proof.
  intros Hi Hij. unfold item. destruct (Z.ltb j 0) eqn:Hj; [reflexivity|].
  apply Z.ltb_ge in Hj. apply nth_error_assign_other. lia.
Qed.

Lemma valid_inv (b : Board) (pos : Position) :
  isValidMove b pos = Value true ->
  exists r, item b (row pos) = Some r /\ item r (col pos) = Some None.
Proof.
  unfold isValidMove. destruct (item b (row pos)) as [r|]; [|discriminate].
  intros H. exists r. split; [reflexivity|].
  destruct (item r (col pos)) as [[q|]|]; try discriminate. reflexivity.
Qed.

Lemma makeMove_valid (b : Board) (m : Move) (r : list Cell) :
  item b (row (position m)) = Some r ->
  item r (col (position m)) = Some None ->
  makeMove b m
  = Value (true, assign b (Z.to_nat (row (position m)))
                        (assign r (Z.to_nat (col (position m))) (Some (player m)))).
Proof.
  intros Hr Hc. unfold makeMove, isValidMove. rewrite Hr, Hc. reflexivity.
Qed.

Lemma makeMove_elsewhere (b : Board) (m : Move) (r : list Cell) (pos : Position) :
  item b (row (position m)) = Some r ->
  item r (col (position m)) = Some None ->
  pos <> position m ->
  cellAt (assign b (Z.to_nat (row (position m)))
                 (assign r (Z.to_nat (col (position m))) (Some (player m)))) pos
  = cellAt b pos.
Proof.
  intros Hr Hc Hne. unfold cellAt.
  destruct (item_Some _ _ _ Hr) as (Hr0 & _ & _).
  destruct (item_Some _ _ _ Hc) as (Hc0 & _ & _).
  destruct (Z.eq_dec (row (position m)) (row pos)) as [Heq|Hrow].
  - rewrite <- Heq. rewrite (item_assign_same b _ _ r Hr), Hr.
    apply item_assign_other; [exact Hc0|].
    intros Hcol. apply Hne. destruct pos, (position m). simpl in *. congruence.
  - rewrite (item_assign_other b _ _ _ Hr0 Hrow). reflexivity.
Qed.

(** A move on a free square succeeds: afterwards the square holds the
    player of the move, and every other square of the board is as it
    was. *)
Theorem makeMove_takes_free_square (b : Board) (m : Move) :
  isValidMove b (position m) = Value true ->
  exists b',
    makeMove b m = Value (true, b') /\
    cellAt b (position m) = Some None /\
    cellAt b' (position m) = Some (Some (player m)) /\
    (forall pos, pos <> position m -> cellAt b' pos = cellAt b pos).
Proof.
  intros H. destruct (valid_inv b _ H) as (r & Hr & Hc).
  eexists. split; [apply (makeMove_valid b m r Hr Hc)|]. split; [|split].
  - unfold cellAt. rewrite Hr. exact Hc.
  - unfold cellAt. rewrite (item_assign_same b _ _ r Hr).
    apply (item_assign_same r _ _ None Hc).
  - intros pos Hne. apply makeMove_elsewhere; assumption.
Qed.

Lemma makeMove_takes_free_square_witness :
  exists b',
    makeMove emptyBoard (mkMove PX (mkPosition 1 1)) = Value (true, b') /\
    cellAt b' (mkPosition 1 1) = Some (Some PX).
Proof.
  destruct (makeMove_takes_free_square emptyBoard (mkMove PX (mkPosition 1 1)))
    as (b' & Hm & _ & Hc & _); [reflexivity|].
  exists b'. split; [exact Hm | exact Hc].
Defined.

Lemma makeMove_inv (b : Board) (m : Move) (ok : bool) (b' : Board) :
  makeMove b m = Value (ok, b') ->
  (ok = false /\ b' = b) \/
  (ok = true /\ exists r,
      item b (row (position m)) = Some r /\
      item r (col (position m)) = Some None /\
      b' = assign b (Z.to_nat (row (position m)))
                  (assign r (Z.to_nat (col (position m))) (Some (player m)))).
Proof.
  unfold makeMove.
  destruct (isValidMove b (position m)) as [[|]|e] eqn:Hv; try discriminate.
  - destruct (valid_inv b _ Hv) as (r & Hr & Hc). rewrite Hr.
    intros H. injection H as <- <-. right. split; [reflexivity|]. exists r. auto.
  - intros H. injection H as <- <-. left. auto.
Qed.

Lemma makeMove_keeps (b : Board) (m : Move) (ok : bool) (b' : Board) :
  makeMove b m = Value (ok, b') ->
  (ok = false -> b' = b) /\
  (ok = true -> cellAt b (position m) = Some None) /\
  (forall pos q, cellAt b pos = Some (Some q) -> cellAt b' pos = Some (Some q)).
Proof.
  intros H. destruct (makeMove_inv b m ok b' H) as [[-> ->]|(-> & r & Hr & Hc & ->)].
  - repeat split; auto. discriminate.
  - assert (Hfree : cellAt b (position m) = Some None)
      by (unfold cellAt; rewrite Hr; exact Hc).
    split; [discriminate|]. split; [auto|].
    intros pos q Hq. rewrite makeMove_elsewhere; auto.
    intros ->. congruence.
Qed.

(** A move never overwrites: a square that is taken keeps its player
    through every call of [makeMove]; a move that is refused leaves the
    board as it was, and a move that is accepted was made on a square that
    held [null]. *)
Theorem makeMove_never_overwrites (b : Board) (m : Move) (ok : bool) (b' : Board) :
  makeMove b m = Value (ok, b') ->
  (ok = false -> b' = b) /\
  (ok = true -> cellAt b (position m) = Some None) /\
  (forall pos q, cellAt b pos = Some (Some q) -> cellAt b' pos = Some (Some q)).
Proof.
  intros H. destruct (makeMove_inv b m ok b' H) as [[-> ->]|(-> & r & Hr & Hc & ->)].
  - split; [reflexivity|]. split; [discriminate | auto].
  - assert (Hfree : cellAt b (position m) = Some None).
    { unfold cellAt. rewrite Hr. exact Hc. }
    split; [discriminate|]. split; [intros _; exact Hfree|].
    intros pos q Hq. rewrite (makeMove_elsewhere b m r pos Hr Hc); [exact Hq|].
    intros Heq. rewrite Heq, Hfree in Hq. discriminate.
Qed.

Lemma makeMove_never_overwrites_witness :
  makeMove [[Some PX; None; None]; [None; None; None]; [None; None; None]]
           (mkMove PO (mkPosition 0 0))
  = Value (false, [[Some PX; None; None]; [None; None; None]; [None; None; None]]).
Proof.
  destruct (makeMove [[Some PX; None; None]; [None; None; None]; [None; None; None]]
                     (mkMove PO (mkPosition 0 0))) as [[ok b']|e] eqn:H;
    [|vm_compute in H; discriminate].
  destruct (makeMove_never_overwrites _ _ ok b' H) as (Hf & _ & _).
  assert (Hok : ok = false) by (vm_compute in H; congruence).
  rewrite (Hf Hok), Hok. reflexivity.
Defined.

Lemma item_None {A : Type} (l : list A) (i : Z) :
  (i < 0 \/ Z.of_nat (List.length l) <= i)%Z -> item l i = None.
Proof.
  intros H. unfold item. destruct (Z.ltb i 0) eqn:Hi; [reflexivity|].
  apply Z.ltb_ge in Hi. apply nth_error_None. lia.
Qed.

Lemma item_in_range {A : Type} (l : list A) (i : Z) :
  (0 <= i < Z.of_nat (List.length l))%Z -> exists x, item l i = Some x /\ In x l.
Proof.
  intros H. unfold item. destruct (Z.ltb i 0) eqn:Hi; [apply Z.ltb_lt in Hi; lia|].
  destruct (nth_error l (Z.to_nat i)) as [x|] eqn:Hn.
  - exists x. split; [reflexivity|]. eapply nth_error_In; eauto.
  - apply nth_error_None in Hn. lia.
Qed.

(** Off the board the two coordinates behave differently: a row that is
    not 0, 1 or 2 makes [makeMove] throw a [TypeError]; with a row of the
    board, a column that is not 0, 1 or 2 makes it answer [false] and
    leave the board alone. *)
Theorem makeMove_off_the_board (b : Board) (m : Move) :
  shaped b ->
  ((row (position m) < 0 \/ 3 <= row (position m))%Z ->
   makeMove b m = Thrown "TypeError") /\
  ((0 <= row (position m) < 3)%Z ->
   (col (position m) < 0 \/ 3 <= col (position m))%Z ->
   makeMove b m = Value (false, b)).
Proof.
  intros [Hl Hr]. split.
  - intros H. unfold makeMove, isValidMove. rewrite item_None; [reflexivity|]. lia.
  - intros Hrow Hcol. unfold makeMove, isValidMove.
    destruct (item_in_range b (row (position m))) as (r & Hi & Hin); [lia|].
    rewrite Hi. rewrite Forall_forall in Hr. specialize (Hr r Hin).
    rewrite item_None; [reflexivity|]. lia.
Qed.

Lemma makeMove_off_the_board_witness :
  makeMove emptyBoard (mkMove PX (mkPosition 3 0)) = Thrown "TypeError" /\
  makeMove emptyBoard (mkMove PX (mkPosition 0 3)) = Value (false, emptyBoard).
Proof.
  split.
  - apply (makeMove_off_the_board emptyBoard (mkMove PX (mkPosition 3 0))).
    + split; [reflexivity | repeat constructor].
    + simpl. lia.
  - apply (makeMove_off_the_board emptyBoard (mkMove PX (mkPosition 0 3))).
    + split; [reflexivity | repeat constructor].
    + simpl. lia.
    + simpl. lia.
Defined.

Lemma Forall_assign {A : Type} (P : A -> Prop) (l : list A) (i : nat) (x : A) :
  Forall P l -> P x -> Forall P (assign l i x).
Proof.
  revert i. induction l as [|a l IH]; intros [|i] Hl Hx; simpl; auto;
    inversion Hl; subst; constructor; auto.
Qed.

Lemma makeMove_shaped (b : Board) (m : Move) (ok : bool) (b' : Board) :
  shaped b -> makeMove b m = Value (ok, b') -> shaped b'.
Proof.
  intros [Hl Hr] H.
  destruct (makeMove_inv b m ok b' H) as [[_ ->]|(_ & r & Hi & _ & ->)];
    [split; assumption|].
  split; [rewrite length_assign; exact Hl|].
  apply Forall_assign; [exact Hr|]. rewrite length_assign.
  destruct (item_Some _ _ _ Hi) as (_ & Hn & _).
  rewrite Forall_forall in Hr. apply Hr. eapply nth_error_In; eauto.
Qed.

(** The board has three rows of three cells when it is created, and
    [makeMove] keeps it so, whatever the move. *)
Theorem board_keeps_its_shape :
  shaped emptyBoard /\
  (forall b m ok b', shaped b -> makeMove b m = Value (ok, b') -> shaped b').
Proof.
  split; [split; [reflexivity | repeat constructor]|].
  intros b m ok b' [Hl Hr] H.
  destruct (makeMove_inv b m ok b' H) as [[_ ->]|(_ & r & Hi & _ & ->)].
  - split; assumption.
  - destruct (item_Some _ _ _ Hi) as (_ & Hn & _).
    assert (Hlen : List.length r = 3).
    { rewrite Forall_forall in Hr. apply Hr. eapply nth_error_In; eauto. }
    split; [rewrite length_assign; exact Hl|].
    apply Forall_assign; [exact Hr|]. rewrite length_assign. exact Hlen.
Qed.

Lemma shaped_inv (b : Board) :
  shaped b ->
  exists c00 c01 c02 c10 c11 c12 c20 c21 c22,
    b = [[c00; c01; c02]; [c10; c11; c12]; [c20; c21; c22]].
Proof.
  intros [Hl Hr].
  destruct b as [|r0 [|r1 [|r2 [|? ?]]]]; try discriminate.
  inversion Hr as [|? ? H0 Hr1]; subst. inversion Hr1 as [|? ? H1 Hr2]; subst.
  inversion Hr2 as [|? ? H2 _]; subst.
  destruct r0 as [|? [|? [|? [|? ?]]]]; try discriminate.
  destruct r1 as [|? [|? [|? [|? ?]]]]; try discriminate.
  destruct r2 as [|? [|? [|? [|? ?]]]]; try discriminate.
  repeat eexists.
Qed.

Lemma holds_iff (p : Player) (c : option Cell) : holds p c = true <-> c = Some (Some p).
Proof.
  destruct c as [[q|]|]; simpl; split; try discriminate.
  - destruct q, p; simpl; intros H; try discriminate; reflexivity.
  - intros H. injection H as ->. destruct p; reflexivity.
Qed.

Lemma checkWin_lines (b : Board) (p : Player) :
  shaped b ->
  checkWin b p = existsb (fun line => forallb (fun pos => holds p (cellAt b pos)) line) lines.
Proof.
  intros H. destruct (shaped_inv b H)
    as (c00 & c01 & c02 & c10 & c11 & c12 & c20 & c21 & c22 & ->).
  cbv -[holds].
  repeat match goal with
         | |- context [holds p ?c] => destruct (holds p c)
         end; reflexivity.
Qed.

Lemma checkWin_line (b : Board) (p : Player) :
  shaped b ->
  (checkWin b p = true <->
   exists line, In line lines /\
                forall pos, In pos line -> cellAt b pos = Some (Some p)).
Proof.
  intros H. rewrite (checkWin_lines b p H), existsb_exists.
  split; intros (line & Hin & Hall); exists line; (split; [exact Hin|]).
  - intros pos Hp. apply holds_iff. rewrite forallb_forall in Hall. apply Hall, Hp.
  - apply forallb_forall. intros pos Hp. apply holds_iff, Hall, Hp.
Qed.

(** [checkWin] answers [true] exactly when one of the eight lines of the
    board (three rows, three columns, two diagonals) has the player on each
    of its three squares. *)
Theorem checkWin_iff_line (b : Board) (p : Player) :
  shaped b ->
  (checkWin b p = true <->
   exists line, In line lines /\
                forall pos, In pos line -> cellAt b pos = Some (Some p)).
Proof.
  intros H. rewrite (checkWin_lines b p H). split.
  - intros Hw. apply existsb_exists in Hw. destruct Hw as (line & Hin & Hall).
    exists line. split; [exact Hin|]. intros pos Hp.
    apply holds_iff. apply (proj1 (forallb_forall _ line) Hall pos Hp).
  - intros (line & Hin & Hall). apply existsb_exists. exists line.
    split; [exact Hin|]. apply forallb_forall. intros pos Hp.
    apply holds_iff. apply Hall, Hp.
Qed.

Lemma checkWin_iff_line_witness :
  checkWin [[Some PX; None; None]; [None; Some PX; None]; [Some PO; Some PO; Some PX]] PX
  = true.
Proof.
  apply (checkWin_iff_line
           [[Some PX; None; None]; [None; Some PX; None]; [Some PO; Some PO; Some PX]] PX).
  - split; [reflexivity | repeat constructor].
  - exists [mkPosition 0 0; mkPosition 1 1; mkPosition 2 2]. split.
    + simpl. auto 10.
    + intros pos [<-|[<-|[<-|[]]]]; reflexivity.
Defined.

(** A win is never lost: once a player has a line, [checkWin] keeps
    answering [true] for that player after any further call of
    [makeMove]. *)
Theorem win_is_kept (b : Board) (p : Player) (m : Move) (ok : bool) (b' : Board) :
  shaped b ->
  checkWin b p = true ->
  makeMove b m = Value (ok, b') ->
  checkWin b' p = true.
Proof.
  intros Hs Hw Hm.
  assert (Hs' : shaped b') by (apply (makeMove_shaped b m ok b' Hs Hm)).
  apply (checkWin_line b p Hs) in Hw. destruct Hw as (line & Hin & Hall).
  apply (checkWin_line b' p Hs'). exists line. split; [exact Hin|].
  intros pos Hp. apply (makeMove_keeps b m ok b' Hm). apply Hall, Hp.
Qed.
Lemma win_is_kept_witness :
  checkWin [[Some PX; Some PX; Some PX]; [Some PO; Some PO; None]; [None; None; None]] PX
  = true /\
  forall b', makeMove [[Some PX; Some PX; Some PX]; [Some PO; Some PO; None];
                       [None; None; None]]
                      (mkMove PO (mkPosition 1 2)) = Value (true, b') ->
             checkWin b' PX = true.
Proof.
  split; [reflexivity|]. intros b' H.
  apply (win_is_kept
           [[Some PX; Some PX; Some PX]; [Some PO; Some PO; None]; [None; None; None]]
           PX (mkMove PO (mkPosition 1 2)) true b').
  - split; [reflexivity | repeat constructor].
  - reflexivity.
  - exact H.
Defined.

Lemma forallb_false_witness {A : Type} (f : A -> bool) (l : list A) :
  forallb f l = false -> exists x, In x l /\ f x = false.
Proof.
  induction l as [|a l IH]; simpl; [discriminate|].
  destruct (f a) eqn:Ha; simpl.
  - intros H. destruct (IH H) as (x & Hin & Hx). exists x. auto.
  - intros _. exists a. auto.
Qed.

Lemma In_item {A : Type} (l : list A) (x : A) :
  In x l -> exists i, item l (Z.of_nat i) = Some x.
Proof.
  intros H. apply In_nth_error in H. destruct H as [i Hi]. exists i.
  unfold item. destruct (Z.ltb (Z.of_nat i) 0) eqn:Hlt; [apply Z.ltb_lt in Hlt; lia|].
  rewrite Nat2Z.id. exact Hi.
Qed.

(** The board is full exactly when no position is a valid move; on a full
    board [makeMove] answers [false] for every move it does not throw on,
    and leaves the board as it is. *)
Theorem full_board_refuses_every_move (b : Board) :
  (isFull b = true <-> forall pos, isValidMove b pos <> Value true) /\
  (isFull b = true ->
   forall m ok b', makeMove b m = Value (ok, b') -> ok = false /\ b' = b).
Proof.
  assert (H1 : isFull b = true -> forall pos, isValidMove b pos <> Value true).
  { intros Hf pos Hv. destruct (valid_inv b pos Hv) as (r & Hr & Hc).
    destruct (item_Some _ _ _ Hr) as (_ & Hnr & _).
    destruct (item_Some _ _ _ Hc) as (_ & Hnc & _).
    apply nth_error_In in Hnr. apply nth_error_In in Hnc.
    unfold isFull in Hf. rewrite forallb_forall in Hf. specialize (Hf r Hnr).
    rewrite forallb_forall in Hf. specialize (Hf None Hnc). discriminate. }
  split; [split; [exact H1|]|].
  - intros Hno. destruct (isFull b) eqn:Hf; [reflexivity|]. exfalso.
    unfold isFull in Hf. apply forallb_false_witness in Hf.
    destruct Hf as (r & Hr & Hf). apply forallb_false_witness in Hf.
    destruct Hf as (c & Hc & Hnull). destruct c as [q|]; [discriminate|].
    destruct (In_item b r Hr) as [i Hi]. destruct (In_item r None Hc) as [j Hj].
    apply (Hno (mkPosition (Z.of_nat i) (Z.of_nat j))).
    unfold isValidMove. simpl. rewrite Hi, Hj. reflexivity.
  - intros Hf m ok b' Hm.
    destruct (makeMove_inv b m ok b' Hm) as [[-> ->]|(_ & r & Hr & Hc & _)]; [auto|].
    exfalso. apply (H1 Hf (position m)). unfold isValidMove. rewrite Hr, Hc. reflexivity.
Qed.

Lemma cnt_assign (r : list Cell) (i : nat) (p : Player) :
  nth_error r i = Some None ->
  List.length (filter (fun c : Cell => match c with Some _ => true | None => false end)
                      (assign r i (Some p)))
  = S (List.length (filter (fun c : Cell => match c with Some _ => true | None => false end)
                           r)).
Proof.
  revert i. induction r as [|a r IH]; intros [|i] H; simpl in *; try discriminate.
  - injection H as ->. reflexivity.
  - destruct a; simpl; rewrite (IH i H); reflexivity.
Qed.

Lemma taken_assign (b : Board) (i : nat) (r r' : list Cell) :
  nth_error b i = Some r ->
  taken (assign b i r')
  + List.length (filter (fun c : Cell => match c with Some _ => true | None => false end) r)
  = taken b
    + List.length (filter (fun c : Cell => match c with Some _ => true | None => false end)
                          r').
Proof.
  unfold taken. revert i. induction b as [|a b IH]; intros [|i] H; simpl in *;
    try discriminate.
  - injection H as ->. rewrite !filter_app, !length_app. lia.
  - specialize (IH i H). rewrite !filter_app, !length_app. lia.
Qed.

Lemma filter_all {A : Type} (f : A -> bool) (l : list A) :
  forallb f l = true <-> List.length (filter f l) = List.length l.
Proof.
  induction l as [|a l IH]; simpl; [tauto|].
  pose proof (filter_length_le f l) as Hle.
  destruct (f a); simpl; [rewrite IH; lia|].
  split; [discriminate | lia].
Qed.

Lemma forallb_concat {A : Type} (f : A -> bool) (ll : list (list A)) :
  forallb (forallb f) ll = forallb f (List.concat ll).
Proof.
  induction ll as [|l ll IH]; simpl; [reflexivity|].
  rewrite forallb_app, IH. reflexivity.
Qed.

(** Each accepted move takes exactly one more square and a refused move
    takes none; the new board has none taken, a board never has more than
    nine, and it is full exactly when nine are taken: a game has at most
    nine accepted moves. *)
Theorem accepted_moves_are_counted (b : Board) (m : Move) (ok : bool) (b' : Board) :
  makeMove b m = Value (ok, b') ->
  taken b' = (if ok then S (taken b) else taken b) /\
  taken emptyBoard = 0 /\
  (shaped b -> taken b <= 9 /\ (isFull b = true <-> taken b = 9)).
Proof.
  intros Hm. split; [|split; [reflexivity|]].
  - destruct (makeMove_inv b m ok b' Hm) as [[-> ->]|(-> & r & Hr & Hc & ->)];
      [reflexivity|].
    destruct (item_Some _ _ _ Hr) as (_ & Hnr & _).
    destruct (item_Some _ _ _ Hc) as (_ & Hnc & _).
    pose proof (taken_assign b _ r
                  (assign r (Z.to_nat (col (position m))) (Some (player m))) Hnr) as Ht.
    rewrite (cnt_assign r _ (player m) Hnc) in Ht. lia.
  - intros Hs. destruct (shaped_inv b Hs)
      as (c00 & c01 & c02 & c10 & c11 & c12 & c20 & c21 & c22 & ->).
    unfold isFull, taken. rewrite forallb_concat, filter_all.
    split; [apply filter_length_le | reflexivity].
Qed.

Lemma accepted_moves_are_counted_witness :
  exists b', makeMove emptyBoard (mkMove PX (mkPosition 1 1)) = Value (true, b') /\
             taken b' = 1.
Proof.
  eexists. split; [reflexivity|].
  apply (accepted_moves_are_counted emptyBoard (mkMove PX (mkPosition 1 1)) true).
  reflexivity.
Defined.

End TicTacToeFacts.

(* ------------------------------------------------------------------ *)
(** ** Threads and their tasks *)













































(** Every sync that the factory builds is fresh. *)
Lemma makeSyncSpec_fresh (o : SyncOptions) : fresh (makeSyncSpec o).
Proof. unfold fresh, makeSyncSpec. simpl. destruct (opt_exec o); exact I. Qed.




(* ------------------------------------------------------------------ *)
(** ** A producer and a consumer *)

Lemma relay_turn (e : Event) (es : list Event) (rt : Runtime) :
  truthy e = true ->
  schedule (relayAt e es) rt
  = mkTurn (match es with
            | [] => []
            | x :: more => relayAt x more
            end) rt true (Some e) None.
Proof.
  intros Ht. unfold schedule.
  rewrite harvest_idle by (intros x [<-|[<-|[]]] r; discriminate).
  simpl.
  assert (Hs : selectedEvent (relayAt e es) = e) by reflexivity.
  rewrite Hs, Ht. simpl. unfold advanceThread. simpl.
  rewrite !sameValueZero_refl. simpl.
  destruct es as [|x more]; reflexivity.
Qed.

Lemma relay_runs (es : list Event) :
  Forall (fun e => truthy e = true) es ->
  forall e s,
    truthy e = true ->
    activeThreads s = relayAt e es ->
    selections (2 + List.length es) s = e :: es /\
    exists s', iterate (2 + List.length es) s = Broke s' /\
               activeThreads s' = [] /\
               pendingThreads s' = pendingThreads s /\
               runtime s' = runtime s.
Proof.
  induction 1 as [|x more Hx Hmore IH]; intros e s He Hs.
  - simpl. unfold turn. rewrite Hs, (relay_turn e [] _ He). simpl.
    split; [reflexivity|]. eexists. split; [reflexivity|]. simpl. auto.
  - assert (Ha : activeThreads (after s (turn s)) = relayAt x more).
    { simpl. unfold turn. rewrite Hs, (relay_turn e (x :: more) _ He). reflexivity. }
    destruct (IH x (after s (turn s)) Hx Ha) as (Hsel & s' & Hit & Hact & Hp & Hr).
    assert (Ht : turn s = mkTurn (relayAt x more) (runtime s) true (Some e) None).
    { unfold turn. rewrite Hs. apply (relay_turn e (x :: more) _ He). }
    split.
    + change (selections (2 + List.length (x :: more)) s)
        with (match t_selected (turn s) with Some e0 => [e0] | None => [] end
              ++ match t_error (turn s) with
                 | Some _ => []
                 | None => if t_didWork (turn s)
                           then selections (2 + List.length more) (after s (turn s))
                           else []
                 end).
      rewrite Hsel, Ht. reflexivity.
    + exists s'.
      change (iterate (2 + List.length (x :: more)) s)
        with (match t_error (turn s) with
              | Some e0 => Raised e0 (after s (turn s))
              | None => if t_didWork (turn s)
                        then iterate (2 + List.length more) (after s (turn s))
                        else Broke (after s (turn s))
              end).
      rewrite Hit. split; [rewrite Ht; reflexivity|].
      split; [exact Hact|]. split; [rewrite Hp; reflexivity|].
      rewrite Hr. simpl. rewrite Ht. reflexivity.
Qed.

(** The test "basic event coordination", for any events: when a producer
    requests truthy events one after the other and a consumer waits for
    them one after the other, the turns select exactly these events in
    their order, both bodies run to their end, and
    [behavioralThreadSystem] returns the value of the body with no thread
    left. *)
Theorem producer_feeds_consumer (V : Type) (v : V) (e : Event) (es : list Event) :
  Forall (fun x => truthy x = true) (e :: es) ->
  exists final,
    behavioralThreadSystem (3 + List.length es) (relay (e :: es) v) = Returns v final /\
    activeThreads final = [] /\
    pendingThreads final = [] /\
    selections (2 + List.length es)
               (subscribe (incorporate (Scenarios.afterBody (relay (e :: es) v))))
    = e :: es.
Proof.
  intros H. inversion H as [|? ? He Hes]; subst.
  set (s0 := subscribe (incorporate (Scenarios.afterBody (relay (e :: es) v)))).
  assert (Ha : activeThreads s0 = relayAt e es) by reflexivity.
  assert (Hp : pendingThreads s0 = []) by reflexivity.
  destruct (relay_runs es Hes e s0 He Ha) as (Hsel & s' & Hit & Hact & Hpen & _).
  exists (close s'). split; [|split; [exact Hact|split; [simpl; congruence | exact Hsel]]].
  unfold behavioralThreadSystem.
  change (runBody (relay (e :: es) v) initial)
    with (Value (v, Scenarios.afterBody (relay (e :: es) v))).
  cbv iota beta.
  change (scheduler (3 + List.length es) (Scenarios.afterBody (relay (e :: es) v)))
    with (match iterate (2 + List.length es) s0 with
          | Broke s1 =>
              match pendingThreads s1 with
              | [] => Broke s1
              | _ => match awaitNotification s1 with
                     | Some s2 => scheduler (2 + List.length es) s2
                     | None => Stuck s1
                     end
              end
          | other => other
          end).
  rewrite Hit. rewrite Hpen, Hp. reflexivity.
Qed.

Lemma producer_feeds_consumer_witness :
  exists final,
    behavioralThreadSystem 4 (relay [EStr "event1"; EStr "event2"] 7) = Returns 7 final /\
    activeThreads final = [].
Proof.
  destruct (producer_feeds_consumer nat 7 (EStr "event1") [EStr "event2"])
    as (final & Hr & Ha & _).
  - repeat constructor.
  - exists final. split; [exact Hr | exact Ha].
Defined.

(* ------------------------------------------------------------------ *)
(** ** A thread that blocks for good *)

Lemma selected_not_halted (ts : list Thread) (rt : Runtime) (e : Event) :
  t_selected (schedule ts rt) = Some e ->
  halted (t_threads (harvest ts rt)) e = false.
Proof.
  intros H. destruct (schedule_selected_truthy ts rt e H) as (_ & He & Ht).
  unfold selectedEvent in He.
  destruct (findEvent (t_threads (harvest ts rt))) as [x|] eqn:Hf;
    [|subst e; discriminate].
  subst x. apply find_some in Hf. destruct Hf as [_ Hn].
  apply Bool.negb_true_iff in Hn. exact Hn.
Qed.

Lemma blocked_this_turn (t : Thread) (ts : list Thread) (rt : Runtime) (x : Event) :
  silent t -> halt (sync t) x = true -> In t ts ->
  t_selected (schedule ts rt) <> Some x.
Proof.
  intros Hs Hh Hin H.
  pose proof (selected_not_halted ts rt x H) as Hn.
  assert (Ha : In t (t_threads (harvest ts rt))).
  { apply forEach_stays; [|exact Hin].
    intros rt0. apply harvestThread_untouched. apply Hs. }
  rewrite (proj1 (halted_false _ x) Hn t Ha) in Hh. discriminate.
Qed.

(** A thread that only blocks (it requests nothing, waits for nothing and
    runs no operation) blocks for good: as long as the inner loop runs, no
    turn selects an event that this thread halts. *)
Theorem blocked_for_good (t : Thread) (x : Event) :
  silent t ->
  halt (sync t) x = true ->
  forall fuel s, In t (activeThreads s) -> ~ In x (selections fuel s).
Proof.
  intros Hs Hh fuel. induction fuel as [|f IH]; intros s Hin; simpl; [tauto|].
  intros H. apply in_app_or in H. destruct H as [H|H].
  - destruct (t_selected (turn s)) as [e|] eqn:He; [|destruct H].
    destruct H as [H|[]]. subst e. apply (blocked_this_turn t _ _ x Hs Hh Hin He).
  - destruct (t_error (turn s)); [destruct H|].
    destruct (t_didWork (turn s)); [|destruct H].
    apply (IH (after s (turn s))); [|exact H].
    simpl. apply silent_schedule; assumption.
Qed.

Lemma blocked_for_good_witness :
  ~ In (EStr "x")
       (selections 5 (mkSystem
                        [mkThread 0 "a" (Samples.posting [EStr "x"]) (Samples.script []) 1;
                         mkThread 1 "b" (Samples.blocking (Samples.named "x"))
                                  (Samples.script []) 1]
                        [] 2 Scenarios.idle)).
Proof.
  apply (blocked_for_good
           (mkThread 1 "b" (Samples.blocking (Samples.named "x")) (Samples.script []) 1)).
  - repeat split. intros r. discriminate.
  - reflexivity.
  - right. left. reflexivity.
Defined.
